(** * spring-cloud-config: the configuration resolution and refresh engine

    A shallow embedding of [src/index.js] (class [SpringCloudConfig]) and of
    the two library calls its results depend on: [extend(true, target, src)]
    of the [extend] package and [String.prototype.split].

    Layout: the embedding (data, merger, profile filter, pipeline, watcher)
    comes first; the lemmas and the theorems about it follow. *)

From Stdlib Require Import List String Ascii ZArith Bool Lia DecimalString.
Import ListNotations.
Local Open Scope string_scope.
Local Open Scope list_scope.

(* ===================================================================== *)
(** * Part I -- the embedding                                            *)
(* ===================================================================== *)

(** ** JavaScript values occurring in configuration data

    A parsed YAML or JSON value.  Arrays and plain objects are both kept as
    the ordered list of their own enumerable properties, the way [for-in]
    and [extend] see them: an array [[x, y]] has the properties ["0"] and
    ["1"].  [undefined] is not a YAML/JSON value: a place that may hold it
    (a missing property, an unset field, an empty source) is an
    [option value], with [None] for [undefined].  Properties are listed in
    the order of their creation; that JavaScript lists the integer-like keys
    of a plain object first is not modelled, and numbers are integers. *)

Unset Elimination Schemes.
Inductive value : Type :=
| VNull
| VBool (b : bool)
| VNum (n : Z)
| VStr (s : string)
| VArr (ps : list (string * value))
| VObj (ps : list (string * value)).
Set Elimination Schemes.

Definition props : Type := list (string * value).

(** Induction over values, with the hypothesis for every property value. *)
Definition value_induction (P : value -> Prop)
    (Hnull : P VNull)
    (Hbool : forall b, P (VBool b))
    (Hnum : forall n, P (VNum n))
    (Hstr : forall s, P (VStr s))
    (Harr : forall ps, Forall (fun kv => P (snd kv)) ps -> P (VArr ps))
    (Hobj : forall ps, Forall (fun kv => P (snd kv)) ps -> P (VObj ps)) :
  forall v, P v :=
  fix go (v : value) : P v :=
    let each :=
      fix each (ps : props) : Forall (fun kv => P (snd kv)) ps :=
        match ps with
        | [] => Forall_nil _
        | kv :: r => Forall_cons kv (go (snd kv)) (each r)
        end in
    match v with
    | VNull => Hnull
    | VBool b => Hbool b
    | VNum n => Hnum n
    | VStr s => Hstr s
    | VArr ps => Harr ps (each ps)
    | VObj ps => Hobj ps (each ps)
    end.

(** [ToBoolean]: what [if (x)], [x && y] and [!x] test. *)
Definition truthy (v : value) : bool :=
  match v with
  | VNull => false
  | VBool b => b
  | VNum n => negb (n =? 0)%Z
  | VStr s => negb (s =? "")
  | VArr _ | VObj _ => true
  end.

Definition truthy_opt (o : option value) : bool :=
  match o with None => false | Some v => truthy v end.

(** [typeof v === 'object'] for a non-null [v]: arrays are objects. *)
Definition is_object (v : value) : bool :=
  match v with VArr _ | VObj _ => true | _ => false end.

(** [o[k]] on a property list: the first binding ([undefined] if none). *)
Fixpoint get_prop (ps : props) (k : string) : option value :=
  match ps with
  | [] => None
  | (k', v) :: r => if (k' =? k) then Some v else get_prop r k
  end.

(** [o[k] = v]: an existing property keeps its place, a new one goes last. *)
Fixpoint set_prop (ps : props) (k : string) (v : value) : props :=
  match ps with
  | [] => [(k, v)]
  | (k', v') :: r =>
      if (k' =? k) then (k, v) :: r else (k', v') :: set_prop r k v
  end.

Definition keys (ps : props) : list string := map fst ps.

(** Decimal index of an array element or string character. *)
Definition index_key (i : nat) : string := NilEmpty.string_of_uint (Nat.to_uint i).

Fixpoint indexed (i : nat) (l : list value) : props :=
  match l with
  | [] => []
  | v :: r => (index_key i, v) :: indexed (S i) r
  end.

(** The array literal [[v0, v1, ...]]. *)
Definition arr_of_list (l : list value) : value := VArr (indexed 0 l).

Definition chars (s : string) : list value :=
  map (fun c => VStr (String c EmptyString)) (list_ascii_of_string s).

(** [for (name in v)]: the own enumerable properties of [v], in the order
    of the list (for an object with integer-like keys JavaScript lists
    those first, in ascending order). *)
Definition for_in (v : value) : props :=
  match v with
  | VArr ps | VObj ps => ps
  | VStr s => indexed 0 (chars s)
  | VNull | VBool _ | VNum _ => []
  end.

(** [v.k] read from a value that is known not to be null: only objects and
    arrays carry the property names the source reads ([spring], [cloud],
    [config], [profiles], [name], [enabled]); on a string, number or boolean
    these are [undefined]. *)
Definition member (v : value) (k : string) : option value :=
  match v with
  | VArr ps | VObj ps => get_prop ps k
  | _ => None
  end.

(** ** [String.prototype.split] with a one-character separator *)

Fixpoint split (sep : ascii) (s : string) : list string :=
  match s with
  | EmptyString => [EmptyString]
  | String c r =>
      if Ascii.eqb c sep then EmptyString :: split sep r
      else match split sep r with
           | [] => [String c EmptyString]
           | h :: t => String c h :: t
           end
  end.

Definition dot : ascii := "."%char.
Definition comma : ascii := ","%char.
Definition bang : ascii := "!"%char.

(** ** The [extend] package, called as [extend(true, target, options)]

    For each [name in options]: [src = target[name]], [copy = options[name]];
    a plain object (an array) [copy] is merged into [src] when [src] is a
    plain object (an array) and into a fresh [{}] ([[]]) otherwise; any other
    [copy] is assigned.  The test [target !== copy] always passes here, every
    target being a fresh object or a clone made by [extend] itself, and no
    property value is [undefined]. *)

Fixpoint extend_val (copy : value) (src : option value) {struct copy} : value :=
  match copy with
  | VObj ps =>
      let clone := match src with Some (VObj t) => t | _ => [] end in
      VObj ((fix each (ps : props) (target : props) {struct ps} : props :=
               match ps with
               | [] => target
               | (name, c) :: rest =>
                   each rest (set_prop target name (extend_val c (get_prop target name)))
               end) ps clone)
  | VArr ps =>
      let clone := match src with Some (VArr t) => t | _ => [] end in
      VArr ((fix each (ps : props) (target : props) {struct ps} : props :=
               match ps with
               | [] => target
               | (name, c) :: rest =>
                   each rest (set_prop target name (extend_val c (get_prop target name)))
               end) ps clone)
  | _ => copy
  end.

(** The loop [for (name in options)] over the target's property list. *)
Fixpoint extend_each (ps : props) (target : props) {struct ps} : props :=
  match ps with
  | [] => target
  | (name, c) :: rest =>
      extend_each rest (set_prop target name (extend_val c (get_prop target name)))
  end.

(** [extend(true, target, options)] for a target that is an object;
    [options] null or undefined is skipped. *)
Definition extend (target : props) (options : option value) : props :=
  match options with
  | None | Some VNull => target
  | Some o => extend_each (for_in o) target
  end.

(** ** PropertyTree Merger *)

(** [_mergeProperties(objects)], index.js 293-299. *)
Definition _mergeProperties (objects : list (option value)) : value :=
  VObj (fold_left extend objects []).

(** [_createObjectForProperty(propertyKeys, propertyValue)], index.js 327-338.
    For the segment [__proto__] the assignment of index.js 335 sets the
    prototype of [thisObject], or does nothing, instead of creating a
    property; that case is outside this model, and the statements that
    depend on it exclude the segment. *)
Fixpoint _createObjectForProperty (propertyKeys : list string) (propertyValue : value) : value :=
  match propertyKeys with
  | [] => propertyValue
  | thisPropertyName :: rest =>
      VObj [(thisPropertyName, _createObjectForProperty rest propertyValue)]
  end.

(** [_parsePropertiesToObjects(propertiesObject)], index.js 308-317. *)
Definition _parsePropertiesToObjects (propertiesObject : option value) : value :=
  match propertiesObject with
  | Some po =>
      if truthy po then
        VObj (fold_left
                (fun object kv =>
                   extend object (Some (_createObjectForProperty (split dot (fst kv)) (snd kv))))
                (for_in po) [])
      else VObj []
  | None => VObj []
  end.


(** ** Profile Filter *)

(** [Array.prototype.indexOf] on an array of strings: [-1] when absent. *)
Fixpoint indexOf (l : list string) (x : string) : Z :=
  match l with
  | [] => (-1)%Z
  | y :: r =>
      if (y =? x) then 0%Z
      else let i := indexOf r x in if (i <? 0)%Z then (-1)%Z else (i + 1)%Z
  end.

(** Errors: what a [throw] or a promise rejection carries. *)
Inductive error : Type :=
| TypeError
| RejectionString (msg : string)
| SystemError (path : string)
| YAMLException
| ClientError (code : Z).

(** The loop over [documentProfiles], index.js 261-272: [None] is the early
    [return false], [Some u] the value of [useThisDoc] after the loop. *)
Fixpoint scan_profiles (documentProfiles activeProfiles : list string)
    (useThisDoc : bool) : option bool :=
  match documentProfiles with
  | [] => Some useThisDoc
  | EmptyString :: rest => scan_profiles rest activeProfiles useThisDoc
  | (String c excludeProfile as token) :: rest =>
      if Ascii.eqb c bang then
        if (0 <=? indexOf activeProfiles excludeProfile)%Z then None
        else scan_profiles rest activeProfiles useThisDoc
      else if (0 <=? indexOf activeProfiles token)%Z then
        scan_profiles rest activeProfiles true
      else scan_profiles rest activeProfiles useThisDoc
  end.

(** [_shouldUseDocument(document, activeProfiles)], index.js 254-275.
    [document.profiles.split] is a [TypeError] unless [profiles] is a
    string. *)
Definition _shouldUseDocument (document : option value)
    (activeProfiles : option (list string)) : error + bool :=
  match document with
  | None => inr false
  | Some d =>
      if truthy d && negb (truthy_opt (member d "profiles")) then inr true
      else if truthy d then
        match activeProfiles with
        | None => inr false
        | Some ap =>
            match member d "profiles" with
            | Some (VStr p) =>
                match scan_profiles (split comma p) ap false with
                | None => inr false
                | Some useThisDoc => inr useThisDoc
                end
            | _ => inl TypeError
            end
        end
      else inr false
  end.

(** ** The instance, its environment and the effects *)

Record options : Type := mkOptions {
  configPath : option string;
  activeProfiles : option (list string);
  bootstrapPath : option string;
  level : option string
}.

Record watchConfig : Type := mkWatch {
  interval : Z;
  running : bool;
  timerId : option nat
}.

(** The fields of a [SpringCloudConfig] instance (constructor, 10-27). *)
Record instance : Type := mkInstance {
  _options : options;
  _remoteConfig : option value;
  _localConfig : option value;
  _bootstrapConfig : option value;
  _config : option value;
  _watchConfig : watchConfig
}.

Definition new_SpringCloudConfig (o : options) : instance :=
  mkInstance o None None None None (mkWatch 60000 false None).

(** Modelled from the spec: the module [./config-events] is not among the
    sources; the spec names its two notifications, [CONFIG_REFRESH] and
    [CONFIG_ERROR]. *)
Inductive emission : Type :=
| CONFIG_REFRESH_EVENT (payload : value)
| CONFIG_ERROR_EVENT (err : error).

(** File and network operations, as they are performed. *)
Inductive io_event : Type :=
| ReadFile (path : string)
| ExistsSync (path : string)
| RemoteFetch (cloudOptions : value).

(** What [cloudConfigClient.load] does: its promise is fulfilled with a
    [Config] (given by the pairs its [forEach(cb, false)] enumerates) or with
    a falsy value, or is rejected, or the call itself throws.  Rejections and
    throws carry error objects. *)
Inductive fetch_result : Type :=
| Fulfilled (cloudConfigProperties : option props)
| Rejected (err : error)
| Thrown (err : error).

(** The collaborators: file system, YAML parser, config-server client.
    [None] stands for a thrown exception. *)
Record world : Type := mkWorld {
  readFileSync : string -> option string;
  existsSync : string -> bool;
  safeLoadAll : string -> option (list (option value));
  safeLoad : string -> option (option value);
  cloudConfigClient_load : value -> fetch_result
}.

(** The instance together with what the event loop holds for it. *)
Record sys : Type := mkSys {
  self : instance;
  io_log : list io_event;
  emitted : list emission;
  timers : list (nat * Z);
  next_timer : nat
}.

Definition boot (o : options) : sys :=
  mkSys (new_SpringCloudConfig o) [] [] [] 1.

Definition with_self (f : instance -> instance) (s : sys) : sys :=
  mkSys (f (self s)) (io_log s) (emitted s) (timers s) (next_timer s).

Definition set_options o (i : instance) : instance :=
  mkInstance o (_remoteConfig i) (_localConfig i) (_bootstrapConfig i) (_config i) (_watchConfig i).
Definition set_remoteConfig v (i : instance) : instance :=
  mkInstance (_options i) v (_localConfig i) (_bootstrapConfig i) (_config i) (_watchConfig i).
Definition set_localConfig v (i : instance) : instance :=
  mkInstance (_options i) (_remoteConfig i) v (_bootstrapConfig i) (_config i) (_watchConfig i).
Definition set_bootstrapConfig v (i : instance) : instance :=
  mkInstance (_options i) (_remoteConfig i) (_localConfig i) v (_config i) (_watchConfig i).
Definition set_config v (i : instance) : instance :=
  mkInstance (_options i) (_remoteConfig i) (_localConfig i) (_bootstrapConfig i) v (_watchConfig i).
Definition set_watchConfig wc (i : instance) : instance :=
  mkInstance (_options i) (_remoteConfig i) (_localConfig i) (_bootstrapConfig i) (_config i) wc.

(** A computation that may touch the instance, do I/O, and end in a value
    (a returned value, a fulfilled promise) or in an error (a throw, a
    rejected promise). *)
Definition M (A : Type) : Type := sys -> sys * (error + A).

Definition ret {A} (a : A) : M A := fun s => (s, inr a).
Definition throw {A} (e : error) : M A := fun s => (s, inl e).
Definition bind {A B} (m : M A) (f : A -> M B) : M B :=
  fun s => match m s with
           | (s', inr a) => f a s'
           | (s', inl e) => (s', inl e)
           end.
Definition try_catch {A} (m : M A) (handler : error -> M A) : M A :=
  fun s => match m s with
           | (s', inl e) => handler e s'
           | r => r
           end.
Definition lift {A} (r : error + A) : M A := fun s => (s, r).
Definition log_more (t : list io_event) (s : sys) : sys :=
  mkSys (self s) (io_log s ++ t) (emitted s) (timers s) (next_timer s).
Definition perform (ev : io_event) : M unit := fun s => (log_more [ev] s, inr tt).
Definition this : M instance := fun s => (s, inr (self s)).
Definition update (f : instance -> instance) : M unit := fun s => (with_self f s, inr tt).
Definition from_option {A} (e : error) (o : option A) : M A :=
  match o with Some a => ret a | None => throw e end.

Declare Scope js_scope.
Delimit Scope js_scope with js.
Notation "x <- m ;; k" := (bind m (fun x => k))
  (at level 61, m at next level, right associativity) : js_scope.
Notation "m ;; k" := (bind m (fun _ => k))
  (at level 61, right associativity) : js_scope.
Local Open Scope js_scope.

(** Reading a property needs a base that is neither undefined nor null. *)
Definition nonnull (o : option value) : error + value :=
  match o with
  | None | Some VNull => inl TypeError
  | Some v => inr v
  end.

(** [base[k] = x] in strict code (a class body): a property can be created
    on an object or an array only. *)
Definition put_member (base : value) (k : string) (x : value) : error + value :=
  match base with
  | VObj ps => inr (VObj (set_prop ps k x))
  | VArr ps => inr (VArr (set_prop ps k x))
  | _ => inl TypeError
  end.

(** [base.p1. ... .pn.k = x]; the result is [base] after the assignment. *)
Fixpoint assign_in (base : value) (path : list string) (k : string) (x : value)
    : error + value :=
  match path with
  | [] => put_member base k x
  | p :: rest =>
      match nonnull (member base p) with
      | inl e => inl e
      | inr child =>
          match assign_in child rest k x with
          | inl e => inl e
          | inr child' => put_member base p child'
          end
      end
  end.

(** [base.p1. ... .pn], read. *)
Fixpoint read_in (base : option value) (path : list string) : error + option value :=
  match path with
  | [] => inr base
  | p :: rest =>
      match nonnull base with
      | inl e => inl e
      | inr b => read_in (member b p) rest
      end
  end.

Definition spring_cloud_config : list string := ["spring"; "cloud"; "config"].

(** String concatenation with a possibly undefined operand. *)
Definition js_string (o : option string) : string :=
  match o with Some s => s | None => "undefined" end.

Definition truthy_string (o : option string) : bool :=
  match o with Some s => negb (s =? "") | None => false end.

(** ** Document Loader and Resolution Pipeline

    A promise chain runs its stages in order, so a method returning a
    promise is the computation that yields the promise's outcome.  Logging
    ([logger.debug], [logger.error], [logger.level]) changes nothing that
    the pipeline reads and is left out. *)

Section Pipeline.

Variable w : world.

(** The iterator passed to [yaml.safeLoadAll], index.js 232-236. *)
Fixpoint use_documents (docs : list (option value))
    (activeProfiles : option (list string)) (doc : props) : error + props :=
  match docs with
  | [] => inr doc
  | thisDoc :: rest =>
      match _shouldUseDocument thisDoc activeProfiles with
      | inl e => inl e
      | inr true => use_documents rest activeProfiles (extend doc thisDoc)
      | inr false => use_documents rest activeProfiles doc
      end
  end.

(** [_readYaml(relativePath, activeProfiles)], index.js 226-244. *)
Definition _readYaml (relativePath : string)
    (activeProfiles : option (list string)) : M value :=
  perform (ReadFile relativePath) ;;
  text <- from_option (SystemError relativePath) (readFileSync w relativePath) ;;
  docs <- from_option YAMLException (safeLoadAll w text) ;;
  doc <- lift (use_documents docs activeProfiles []) ;;
  ret (VObj doc).

(** [_readYamlAsDocument(relativePath, activeProfiles)], index.js 206-215. *)
Definition _readYamlAsDocument (relativePath : string)
    (activeProfiles : option (list string)) : M value :=
  yamlDoc <- _readYaml relativePath activeProfiles ;;
  ret (_parsePropertiesToObjects (Some yamlDoc)).

(** The body of [activeProfiles.forEach], index.js 141-155. *)
Definition read_profile_yaml (appConfigPath : string)
    (appConfigs : list (option value)) (activeProfile : string)
    : M (list (option value)) :=
  let profileSpecificYaml := ("application-" ++ activeProfile ++ ".yml")%string in
  let profileSpecificYamlPath := (appConfigPath ++ "/" ++ profileSpecificYaml)%string in
  perform (ExistsSync profileSpecificYamlPath) ;;
  if existsSync w profileSpecificYamlPath then
    try_catch
      (perform (ReadFile profileSpecificYamlPath) ;;
       text <- from_option (SystemError profileSpecificYamlPath)
                 (readFileSync w profileSpecificYamlPath) ;;
       propDoc <- from_option YAMLException (safeLoad w text) ;;
       ret (appConfigs ++ [Some (_parsePropertiesToObjects propDoc)]))
      (fun _ => ret appConfigs)
  else ret appConfigs.

Fixpoint forEach_profile (appConfigPath : string) (profiles : list string)
    (appConfigs : list (option value)) : M (list (option value)) :=
  match profiles with
  | [] => ret appConfigs
  | p :: rest =>
      appConfigs' <- read_profile_yaml appConfigPath appConfigs p ;;
      forEach_profile appConfigPath rest appConfigs'
  end.

(** [_readApplicationConfig(appConfigPath, activeProfiles)], index.js 134-161. *)
Definition _readApplicationConfig (appConfigPath : string)
    (activeProfiles : option (list string)) : M value :=
  applicationConfig <- _readYamlAsDocument (appConfigPath ++ "/application.yml")%string activeProfiles ;;
  profiles <- from_option TypeError activeProfiles ;;
  appConfigs <- forEach_profile appConfigPath profiles [Some applicationConfig] ;;
  ret (_mergeProperties appConfigs).

(** The properties copied out of the client's [Config], index.js 179-181. *)
Definition collect (cloudConfigProperties : props) : props :=
  fold_left (fun cloudConfig kv => set_prop cloudConfig (fst kv) (snd kv))
    cloudConfigProperties [].

(** What the promise of [_readCloudConfig] is resolved with once the
    client has answered: the handlers of index.js 177-193.  A fulfilment
    value whose [forEach] throws would leave the promise pending for ever;
    the client's [Config] does not, and such a value is not among the
    answers of [fetch_result]. *)
Definition on_fetch (answer : fetch_result) : value :=
  match answer with
  | Fulfilled (Some cloudConfigProperties) =>
      _parsePropertiesToObjects (Some (VObj (collect cloudConfigProperties)))
  | Fulfilled None => VObj []
  | Rejected _ => VObj []
  | Thrown _ => VObj []
  end.

(** [_readCloudConfig(bootStrapConfig)], index.js 169-198. *)
Definition _readCloudConfig (bootStrapConfig : option value) : M value :=
  cloudOptions <- lift (read_in bootStrapConfig spring_cloud_config) ;;
  cloudOptions <- lift (nonnull cloudOptions) ;;
  if truthy_opt (member cloudOptions "enabled") then
    perform (RemoteFetch cloudOptions) ;;
    ret (on_fetch (cloudConfigClient_load w cloudOptions))
  else ret (VObj []).

(** [_generateConfig()], index.js 277-283. *)
Definition _generateConfig : M unit :=
  that <- this ;;
  update (set_config (Some (_mergeProperties
    [_bootstrapConfig that; _localConfig that; _remoteConfig that]))).

(** The value of [applicationConfig.spring.cloud.config.name] when the
    guard of index.js 100-103 passes. *)
Definition name_override (applicationConfig : value) : option value :=
  match member applicationConfig "spring" with
  | Some s =>
      if truthy s then
        match member s "cloud" with
        | Some c =>
            if truthy c then
              match member c "config" with
              | Some cfg =>
                  if truthy cfg then
                    match member cfg "name" with
                    | Some n => if truthy n then Some n else None
                    | None => None
                    end
                  else None
              | None => None
              end
            else None
        | None => None
        end
      else None
  | None => None
  end.

(** The profiles array as a value. *)
Definition profiles_value (activeProfiles : option (list string)) : option value :=
  match activeProfiles with
  | Some l => Some (arr_of_list (map VStr l))
  | None => None
  end.

(** [config.profiles = activeProfiles]; an undefined right-hand side
    still creates the property, which no later stage can tell from a
    missing one. *)
Definition inject_profiles (thisBootstrapConfig : value)
    (activeProfiles : option (list string)) : error + value :=
  match profiles_value activeProfiles with
  | Some x => assign_in thisBootstrapConfig spring_cloud_config "profiles" x
  | None =>
      match read_in (Some thisBootstrapConfig) spring_cloud_config with
      | inl e => inl e
      | inr cfg =>
          match nonnull cfg with
          | inl e => inl e
          | inr c => if is_object c then inr thisBootstrapConfig else inl TypeError
          end
      end
  end.

Definition theBootstrapPath (opts : options) : string :=
  if truthy_string (bootstrapPath opts) then js_string (bootstrapPath opts)
  else js_string (configPath opts).

(** Bootstrap stage, index.js 87-92. *)
Definition bootstrap_stage : M unit :=
  that <- this ;;
  let opts := _options that in
  thisBootstrapConfig <-
    _readYamlAsDocument (theBootstrapPath opts ++ "/bootstrap.yml")%string
      (activeProfiles opts) ;;
  thisBootstrapConfig <- lift (inject_profiles thisBootstrapConfig (activeProfiles opts)) ;;
  update (set_bootstrapConfig (Some thisBootstrapConfig)).

(** Local stage, index.js 94-105. *)
Definition local_stage : M unit :=
  that <- this ;;
  let opts := _options that in
  applicationConfig <-
    _readApplicationConfig (js_string (configPath opts)) (activeProfiles opts) ;;
  update (set_localConfig (Some applicationConfig)) ;;
  match name_override applicationConfig with
  | Some name =>
      that <- this ;;
      bootstrapConfig <- lift (nonnull (_bootstrapConfig that)) ;;
      renamed <- lift (assign_in bootstrapConfig spring_cloud_config "name" name) ;;
      update (set_bootstrapConfig (Some renamed))
  | None => ret tt
  end.

(** Remote stage, index.js 107-113. *)
Definition remote_stage : M unit :=
  that <- this ;;
  cloudConfig <- _readCloudConfig (_bootstrapConfig that) ;;
  update (set_remoteConfig (Some cloudConfig)).

(** Compose stage, index.js 115-119. *)
Definition compose_stage : M (option value) :=
  _generateConfig ;;
  that <- this ;;
  ret (_config that).

(** [_readConfig()], index.js 82-126: the promise chain; the first
    failing stage rejects the promise with its error. *)
Definition _readConfig : M (option value) :=
  bootstrap_stage ;; local_stage ;; remote_stage ;; compose_stage.

(** [load()], index.js 62-71. *)
Definition load : M (option value) :=
  that <- this ;;
  if negb (truthy_string (configPath (_options that))
           && match activeProfiles (_options that) with Some _ => true | None => false end)
  then throw (RejectionString "Invalid options supplied. Please consult the documentation.")
  else _readConfig.

(** [getConfig()], index.js 73-75. *)
Definition getConfig (s : sys) : option value := _config (self s).

(** [setOptions(options)], index.js 58-60. *)
Definition setOptions (o : options) (s : sys) : sys := with_self (set_options o) s.

End Pipeline.

(** ** Watcher

    The event loop keeps the pending one-shot timers ([timers]); a handle
    is a positive number, hence truthy.  A firing removes its timer from the
    loop and runs the callback of index.js 39-51.  The notification is
    raised when the promise of [_readCloudConfig] settles, after the
    synchronous test of [running]; no listener is modelled. *)

Section Watcher.

Variable w : world.

Definition clearTimeout (h : nat) (s : sys) : sys :=
  mkSys (self s) (io_log s) (emitted s)
    (filter (fun t => negb (fst t =? h)%nat) (timers s)) (next_timer s).

Definition setTimeout (delay : Z) (s : sys) : sys * nat :=
  (mkSys (self s) (io_log s) (emitted s)
     (timers s ++ [(next_timer s, delay)]) (S (next_timer s)),
   next_timer s).

Definition emit (e : emission) (s : sys) : sys :=
  mkSys (self s) (io_log s) (emitted s ++ [e]) (timers s) (next_timer s).

(** The handlers of index.js 41-46: [then] raises the refresh
    notification with the fetched value, [catch] the error notification. *)
Definition notification (outcome : error + value) : emission :=
  match outcome with
  | inr remoteConfig => CONFIG_REFRESH_EVENT remoteConfig
  | inl error => CONFIG_ERROR_EVENT error
  end.

(** [startWatch(interval)] up to the scheduling of the timer,
    index.js 29-39 and 51. *)
Definition startWatch (newInterval : option Z) (s : sys) : sys :=
  let wc := _watchConfig (self s) in
  let interval' :=
    match newInterval with
    | Some i => if (i =? 0)%Z then interval wc else i
    | None => interval wc
    end in
  let s1 := match timerId wc with
            | Some h => clearTimeout h s
            | None => s
            end in
  let (s2, h) := setTimeout interval' s1 in
  with_self (set_watchConfig (mkWatch interval' true (Some h))) s2.

(** [endWatch()], index.js 54-56. *)
Definition endWatch (s : sys) : sys :=
  with_self (fun i => set_watchConfig
    (mkWatch (interval (_watchConfig i)) false (timerId (_watchConfig i))) i) s.

(** The timer callback, index.js 39-51. *)
Definition on_timer (s : sys) : sys :=
  let (s1, outcome) := _readCloudConfig w (_bootstrapConfig (self s)) s in
  let s2 := if negb (running (_watchConfig (self s1)))
            then startWatch None s1 else s1 in
  emit (notification outcome) s2.

Definition pending (h : nat) (s : sys) : bool :=
  existsb (fun t => (fst t =? h)%nat) (timers s).

(** The timer [h] fires: only a pending timer can. *)
Definition fire (h : nat) (s : sys) : option sys :=
  if pending h s then Some (on_timer (clearTimeout h s)) else None.

End Watcher.

(** ** Predicates used by the statements *)

(** Every key of the property list has a single binding, at every depth:
    the shape of an actual JavaScript object. *)
Fixpoint unique_keys (l : list string) : bool :=
  match l with
  | [] => true
  | k :: r => negb (0 <=? indexOf r k)%Z && unique_keys r
  end.

Fixpoint wf (v : value) : bool :=
  match v with
  | VObj ps | VArr ps =>
      unique_keys (map fst ps) && forallb (fun kv => wf (snd kv)) ps
  | _ => true
  end.

(** The key contains the separator character. *)
Fixpoint has_char (c : ascii) (s : string) : bool :=
  match s with
  | EmptyString => false
  | String c' r => Ascii.eqb c' c || has_char c r
  end.

(** No key of the value, at any depth, contains ['.']. *)
Fixpoint dotfree (v : value) : bool :=
  match v with
  | VObj ps | VArr ps =>
      forallb (fun kv => negb (has_char dot (fst kv)) && dotfree (snd kv)) ps
  | _ => true
  end.

Definition dotfree_props (ps : props) : bool :=
  forallb (fun kv => negb (has_char dot (fst kv)) && dotfree (snd kv)) ps.

Definition dotfree_opt (src : option value) : bool :=
  match src with Some s => dotfree s | None => true end.


(** A PropertySet as an element of the array given to [_mergeProperties]. *)
Definition obj (ps : props) : option value := Some (VObj ps).

(** File operations, as opposed to the call of the config-server client. *)
Definition is_file (ev : io_event) : bool :=
  match ev with
  | ReadFile _ | ExistsSync _ => true
  | RemoteFetch _ => false
  end.

(** The operations performed between the states [s] and [s']. *)
Definition performed_since (s s' : sys) : list io_event :=
  skipn (List.length (io_log s)) (io_log s').

(** A computation that performs file operations only. *)
Definition file_stage {A} (m : M A) : Prop :=
  forall s s1 r, m s = (s1, r) ->
    exists t, io_log s1 = io_log s ++ t /\ forallb is_file t = true.

(** The remote-fetch collaborator fails: its promise is rejected, or the
    call throws. *)
Definition fetch_failed (answer : fetch_result) : bool :=
  match answer with
  | Rejected _ | Thrown _ => true
  | Fulfilled _ => false
  end.

(** [base.p1. ... .pn] exists and is an object (or an array, which
    JavaScript counts among the objects). *)
Definition object_at (base : value) (path : list string) : bool :=
  match read_in (Some base) path with
  | inr (Some v) => is_object v
  | _ => false
  end.

(** A token of [document.profiles] that excludes the document: [!name]
    with [name] among the active profiles. *)
Definition negated_active (activeProfiles : list string) (token : string) : bool :=
  match token with
  | String c name => Ascii.eqb c bang && (0 <=? indexOf activeProfiles name)%Z
  | EmptyString => false
  end.

(** A token that selects the document: not empty, not negated, and among
    the active profiles. *)
Definition plain_active (activeProfiles : list string) (token : string) : bool :=
  match token with
  | String c _ => negb (Ascii.eqb c bang) && (0 <=? indexOf activeProfiles token)%Z
  | EmptyString => false
  end.

(** Between [s] and [s1] nothing changed but, possibly, the stored
    bootstrap and local PropertySets and the log. *)
Definition framed (s s1 : sys) : Prop :=
  _options (self s1) = _options (self s)
  /\ _config (self s1) = _config (self s)
  /\ _remoteConfig (self s1) = _remoteConfig (self s)
  /\ _watchConfig (self s1) = _watchConfig (self s)
  /\ emitted s1 = emitted s
  /\ timers s1 = timers s
  /\ next_timer s1 = next_timer s.

Definition frame_stage {A} (m : M A) : Prop :=
  forall s s1 r, m s = (s1, r) -> framed s s1.

(** [cfg] is the object at [spring.cloud.config] of the stored bootstrap
    PropertySet: what [cloudConfigClient.load] is given. *)
Definition fetch_options (bootStrapConfig : option value) (cfg : value) : Prop :=
  read_in bootStrapConfig spring_cloud_config = inr (Some cfg)
  /\ is_object cfg = true.

(** A computation whose only effect is on the log. *)
Definition reads_only {A} (m : M A) : Prop :=
  forall s s1 r, m s = (s1, r) -> exists t, s1 = log_more t s.

(** The path of the overlay file of a profile, index.js 142-143. *)
Definition overlay_path (appConfigPath activeProfile : string) : string :=
  (appConfigPath ++ "/" ++ ("application-" ++ activeProfile ++ ".yml"))%string.

(** ** Calls on an instance over time

    What a client and the event loop do with one instance, each call in the
    world of its moment.  A timer that is not pending cannot fire; the
    promise of [load] is dropped here. *)

Inductive call : Type :=
| StartWatch (newInterval : option Z)
| EndWatch
| TimerFires (h : nat)
| Load
| SetOptions (o : options).

Definition step (s : sys) (wc : world * call) : sys :=
  match snd wc with
  | StartWatch newInterval => startWatch newInterval s
  | EndWatch => endWatch s
  | TimerFires h => match fire (fst wc) h s with Some s' => s' | None => s end
  | Load => fst (load (fst wc) s)
  | SetOptions o => setOptions o s
  end.

Definition run (calls : list (world * call)) (s : sys) : sys :=
  fold_left step calls s.

(** At most one timer is pending, and it is the one whose handle the
    instance holds. *)
Definition one_timer (s : sys) : Prop :=
  timers s = []
  \/ exists h delay, timers s = [(h, delay)]
                     /\ timerId (_watchConfig (self s)) = Some h.

(** The value a computation ended in, [None] when it ended in an error. *)
Definition snd_value {S A} (x : S * (error + option A)) : option A :=
  match snd x with inr v => v | inl _ => None end.

(** The filter says yes to the document. *)
Definition accepted (activeProfiles : option (list string))
    (document : option value) : bool :=
  match _shouldUseDocument document activeProfiles with
  | inr true => true
  | _ => false
  end.

Definition wf_opt (src : option value) : bool :=
  match src with Some v => wf v | None => true end.

(** The key through which JavaScript reaches the prototype. *)
Definition proto_key : string := "__proto__".

(** No key of the value, at any depth, is [__proto__]. *)
Fixpoint ordinary (v : value) : bool :=
  match v with
  | VObj ps | VArr ps =>
      forallb (fun kv => negb (fst kv =? proto_key) && ordinary (snd kv)) ps
  | _ => true
  end.

(** A property whose key has no segment [__proto__] and whose value is
    ordinary: every assignment made for it creates a property. *)
Definition ordinary_property (kv : string * value) : bool :=
  negb (existsb (fun seg => seg =? proto_key) (split dot (fst kv)))
  && ordinary (snd kv).

Definition is_digit (c : ascii) : bool :=
  (48 <=? nat_of_ascii c)%nat && (nat_of_ascii c <=? 57)%nat.

(** A key made of decimal digits only: the keys that [for-in] may list
    before the others. *)
Definition integer_like (k : string) : bool :=
  negb (k =? "") && forallb is_digit (list_ascii_of_string k).

(** What the overlay file of a profile contributes, index.js 144-151: its
    expanded document when the file exists, can be read and parses,
    nothing otherwise. *)
Definition overlay_of (w : world) (appConfigPath activeProfile : string)
    : list (option value) :=
  if existsSync w (overlay_path appConfigPath activeProfile) then
    match readFileSync w (overlay_path appConfigPath activeProfile) with
    | Some text =>
        match safeLoad w text with
        | Some propDoc => [Some (_parsePropertiesToObjects propDoc)]
        | None => []
        end
    | None => []
    end
  else [].

(** ** A sample deployment

    [/etc/app/bootstrap.yml] and [/etc/app/application.yml] hold one
    document each, there is no profile-specific file, and the config server
    gives the stated answer. *)

Definition sample_bootstrap : value :=
  VObj [("spring.cloud.config.enabled", VBool true);
        ("spring.cloud.config.name", VStr "app")].

Definition sample_application (greeting : string) : value :=
  VObj [("greeting", VStr greeting)].

Definition sample_world (bootstrap : value) (greeting : string)
    (answer : fetch_result) : world :=
  mkWorld
    (fun path =>
       if path =? "/etc/app/bootstrap.yml" then Some "bootstrap"
       else if path =? "/etc/app/application.yml" then Some "application"
       else None)
    (fun _ => false)
    (fun text =>
       if text =? "bootstrap" then Some [Some bootstrap]
       else if text =? "application" then Some [Some (sample_application greeting)]
       else None)
    (fun _ => None)
    (fun _ => answer).

Definition sample_options : options :=
  mkOptions (Some "/etc/app") (Some ["dev"]) None None.

(* ===================================================================== *)
(** * Part II -- properties                                              *)
(* ===================================================================== *)

(** ** Evaluations *)

Example expand_abc :
  _parsePropertiesToObjects (Some (VObj [("a.b.c", VStr "v"); ("a.b.d", VStr "w")]))
  = VObj [("a", VObj [("b", VObj [("c", VStr "v"); ("d", VStr "w")])])].
Proof. reflexivity. Qed.

Example expand_later_key_replaces_scalar :
  _parsePropertiesToObjects (Some (VObj [("a", VNum 1); ("a.b", VNum 2)]))
  = VObj [("a", VObj [("b", VNum 2)])].
Proof. reflexivity. Qed.

Example merge_arrays_by_index :
  _mergeProperties [obj [("x", arr_of_list [VNum 1; VNum 2; VNum 3])];
                    obj [("x", arr_of_list [VNum 9])]]
  = VObj [("x", arr_of_list [VNum 9; VNum 2; VNum 3])].
Proof. reflexivity. Qed.

Example profile_no_field :
  _shouldUseDocument (Some (VObj [("port", VNum 80)])) (Some []) = inr true.
Proof. reflexivity. Qed.

Example profile_match :
  _shouldUseDocument (Some (VObj [("profiles", VStr "dev,test")])) (Some ["test"])
  = inr true.
Proof. reflexivity. Qed.

(** Nothing sets [useThisDoc] for a document that lists only a negated
    profile, active or not. *)
Example profile_negated_inactive :
  _shouldUseDocument (Some (VObj [("profiles", VStr "!prod")])) (Some ["dev"])
  = inr false.
Proof. reflexivity. Qed.

Example profile_no_match :
  _shouldUseDocument (Some (VObj [("profiles", VStr "staging")])) (Some ["dev"])
  = inr false.
Proof. reflexivity. Qed.

Example profile_trailing_comma :
  _shouldUseDocument (Some (VObj [("profiles", VStr "dev,")])) (Some ["dev"; ""])
  = inr true.
Proof. reflexivity. Qed.

(** ** Strings, keys and property lists *)

Lemma indexOf_In (l : list string) (x : string) :
  (0 <=? indexOf l x)%Z = true <-> In x l.
Proof.
  induction l as [|y r IH]; simpl.
  - split; [discriminate | tauto].
  - destruct (String.eqb_spec y x) as [->|Hne].
    + split; auto.
    + destruct (indexOf r x <? 0)%Z eqn:E.
      * apply Z.ltb_lt in E. split; [discriminate|].
        intros [H|H]; [congruence|].
        apply IH in H. apply Z.leb_le in H. lia.
      * apply Z.ltb_ge in E. split.
        -- intros _. right. apply IH. now apply Z.leb_le.
        -- intros _. apply Z.leb_le. lia.
Qed.

Lemma indexOf_absent (l : list string) (x : string) :
  (0 <=? indexOf l x)%Z = false <-> ~ In x l.
Proof.
  rewrite <- indexOf_In. destruct (0 <=? indexOf l x)%Z; split; congruence.
Qed.

Lemma get_prop_keys (ps : props) (k : string) :
  get_prop ps k <> None <-> In k (keys ps).
Proof.
  induction ps as [|[k' v] r IH]; simpl.
  - tauto.
  - destruct (String.eqb_spec k' k) as [->|Hne].
    + split; [auto | discriminate].
    + rewrite IH. split; [auto | intros [H|H]; [congruence | exact H]].
Qed.

Lemma get_prop_absent (ps : props) (k : string) :
  get_prop ps k = None <-> ~ In k (keys ps).
Proof.
  rewrite <- get_prop_keys. destruct (get_prop ps k); split; try congruence.
  intros H. exfalso. apply H. discriminate.
Qed.

Lemma get_set_same (ps : props) (k : string) (v : value) :
  get_prop (set_prop ps k v) k = Some v.
Proof.
  induction ps as [|[k' v'] r IH]; simpl.
  - now rewrite String.eqb_refl.
  - destruct (String.eqb_spec k' k) as [->|Hne]; simpl.
    + now rewrite String.eqb_refl.
    + destruct (String.eqb_spec k' k); [congruence | exact IH].
Qed.

Lemma get_set_other (ps : props) (k k' : string) (v : value) :
  k <> k' -> get_prop (set_prop ps k v) k' = get_prop ps k'.
Proof.
  intros Hne. induction ps as [|[k0 v0] r IH]; simpl.
  - destruct (String.eqb_spec k k'); [congruence | reflexivity].
  - destruct (String.eqb_spec k0 k) as [->|H0]; simpl.
    + destruct (String.eqb_spec k k'); [congruence | reflexivity].
    + destruct (String.eqb_spec k0 k'); [reflexivity | exact IH].
Qed.

Lemma set_prop_fresh (ps : props) (k : string) (v : value) :
  get_prop ps k = None -> set_prop ps k v = ps ++ [(k, v)].
Proof.
  induction ps as [|[k' v'] r IH]; simpl; [reflexivity|].
  destruct (k' =? k); [discriminate|].
  intros H. now rewrite IH.
Qed.

Lemma keys_set_prop (ps : props) (k j : string) (v : value) :
  In j (keys (set_prop ps k v)) <-> j = k \/ In j (keys ps).
Proof.
  induction ps as [|[k' v'] r IH]; simpl.
  - intuition congruence.
  - destruct (String.eqb_spec k' k) as [->|Hne]; simpl.
    + intuition congruence.
    + rewrite IH. intuition congruence.
Qed.

Lemma get_prop_app (t ps : props) (k : string) :
  get_prop (t ++ ps) k =
  match get_prop t k with Some v => Some v | None => get_prop ps k end.
Proof.
  induction t as [|[k' v'] r IH]; simpl; [reflexivity|].
  destruct (k' =? k); [reflexivity | exact IH].
Qed.

(** ** [split] *)

Lemma split_nonempty (sep : ascii) (s : string) : split sep s <> [].
Proof.
  destruct s as [|c r]; simpl; [discriminate|].
  destruct (Ascii.eqb c sep); [discriminate|].
  destruct (split sep r); discriminate.
Qed.

Lemma split_segments (sep : ascii) (s : string) :
  Forall (fun seg => has_char sep seg = false) (split sep s).
Proof.
  induction s as [|c r IH]; simpl.
  - constructor; [reflexivity | constructor].
  - destruct (Ascii.eqb c sep) eqn:E.
    + constructor; [reflexivity | exact IH].
    + destruct (split sep r) as [|h t].
      * constructor; [simpl; now rewrite E | constructor].
      * inversion IH; subst. constructor; [simpl; now rewrite E | assumption].
Qed.

(** ** [extend] *)

Lemma extend_val_obj (ps : props) (src : option value) :
  extend_val (VObj ps) src =
  VObj (extend_each ps (match src with Some (VObj t) => t | _ => [] end)).
Proof. reflexivity. Qed.

Lemma extend_val_arr (ps : props) (src : option value) :
  extend_val (VArr ps) src =
  VArr (extend_each ps (match src with Some (VArr t) => t | _ => [] end)).
Proof. reflexivity. Qed.

Lemma get_extend_each_absent (ps t : props) (k : string) :
  get_prop ps k = None -> get_prop (extend_each ps t) k = get_prop t k.
Proof.
  revert t. induction ps as [|[name c] rest IH]; intros t; simpl; [reflexivity|].
  destruct (String.eqb_spec name k) as [->|Hne]; [discriminate|].
  intros H. rewrite IH by exact H. now apply get_set_other.
Qed.

Lemma get_extend_each (ps t : props) (k : string) :
  unique_keys (keys ps) = true ->
  get_prop (extend_each ps t) k =
  match get_prop ps k with
  | Some c => Some (extend_val c (get_prop t k))
  | None => get_prop t k
  end.
Proof.
  revert t. induction ps as [|[name c] rest IH]; intros t; simpl; [reflexivity|].
  intros H. apply andb_prop in H as [Hk Hu].
  apply negb_true_iff, indexOf_absent in Hk.
  destruct (String.eqb_spec name k) as [->|Hne].
  - rewrite get_extend_each_absent by now apply get_prop_absent.
    apply get_set_same.
  - rewrite IH by exact Hu.
    rewrite get_set_other by exact Hne. reflexivity.
Qed.

Lemma keys_extend_each (ps t : props) (j : string) :
  In j (keys t) \/ In j (keys ps) -> In j (keys (extend_each ps t)).
Proof.
  revert t. induction ps as [|[name c] rest IH]; intros t; simpl.
  - tauto.
  - intros H. apply IH. rewrite keys_set_prop. intuition.
Qed.

Lemma extend_each_fresh (ps t : props) :
  unique_keys (keys ps) = true ->
  (forall k, In k (keys ps) -> get_prop t k = None) ->
  Forall (fun kv => extend_val (snd kv) None = snd kv) ps ->
  extend_each ps t = t ++ ps.
Proof.
  revert t. induction ps as [|[name c] rest IH]; intros t Hu Hfresh Hcopy; simpl.
  - now rewrite app_nil_r.
  - simpl in Hu. apply andb_prop in Hu as [Hk Hu].
    apply negb_true_iff, indexOf_absent in Hk.
    inversion Hcopy as [|? ? Hc Hrest]; subst. simpl in Hc.
    rewrite (Hfresh name) by (simpl; auto).
    rewrite Hc, set_prop_fresh by (apply Hfresh; simpl; auto).
    rewrite IH; [now rewrite <- app_assoc | exact Hu | | exact Hrest].
    intros k Hin. rewrite get_prop_app, (Hfresh k) by (simpl; auto). simpl.
    destruct (String.eqb_spec name k) as [->|_]; [contradiction | reflexivity].
Qed.

(** A deep copy of a value with single bindings is the value itself. *)
Lemma extend_val_copy (v : value) : wf v = true -> extend_val v None = v.
Proof.
  induction v as [| | | |ps IH|ps IH] using value_induction; intros Hwf; try reflexivity.
  - rewrite extend_val_arr. simpl in Hwf. apply andb_prop in Hwf as [Hu Hall].
    f_equal. rewrite extend_each_fresh; [reflexivity | exact Hu | reflexivity |].
    rewrite forallb_forall in Hall. rewrite Forall_forall in IH |- *.
    intros kv Hin. apply IH; auto.
  - rewrite extend_val_obj. simpl in Hwf. apply andb_prop in Hwf as [Hu Hall].
    f_equal. rewrite extend_each_fresh; [reflexivity | exact Hu | reflexivity |].
    rewrite forallb_forall in Hall. rewrite Forall_forall in IH |- *.
    intros kv Hin. apply IH; auto.
Qed.


Lemma extend_each_copy (ps : props) :
  wf (VObj ps) = true -> extend_each ps [] = ps.
Proof.
  intros H. apply extend_val_copy in H. rewrite extend_val_obj in H. congruence.
Qed.


(** ** Dot-path expansion keeps keys free of the separator *)

Lemma dotfree_get (t : props) (k : string) (v : value) :
  dotfree_props t = true -> get_prop t k = Some v -> dotfree v = true.
Proof.
  induction t as [|[k' v'] r IH]; simpl; [discriminate|].
  intros H. apply andb_prop in H as [H1 H2]. apply andb_prop in H1 as [_ Hv].
  destruct (k' =? k); [intros [= <-]; exact Hv | now apply IH].
Qed.

Lemma dotfree_set_prop (t : props) (k : string) (v : value) :
  dotfree_props t = true -> has_char dot k = false -> dotfree v = true ->
  dotfree_props (set_prop t k v) = true.
Proof.
  intros Ht Hk Hv. induction t as [|[k' v'] r IH]; simpl.
  - now rewrite Hk, Hv.
  - simpl in Ht. apply andb_prop in Ht as [H1 H2].
    destruct (k' =? k); simpl.
    + now rewrite Hk, Hv, H2.
    + now rewrite H1, IH.
Qed.

Lemma dotfree_extend_each (ps : props) :
  Forall (fun kv => dotfree (snd kv) = true ->
                    forall src, dotfree_opt src = true ->
                                dotfree (extend_val (snd kv) src) = true) ps ->
  dotfree_props ps = true ->
  forall t, dotfree_props t = true -> dotfree_props (extend_each ps t) = true.
Proof.
  induction ps as [|[name c] rest IH]; intros Hall Hps t Ht; simpl; [exact Ht|].
  inversion Hall as [|? ? Hc Hrest]; subst. simpl in Hc, Hps.
  apply andb_prop in Hps as [H1 H2]. apply andb_prop in H1 as [Hname Hcv].
  apply negb_true_iff in Hname.
  apply IH; [exact Hrest | exact H2 |].
  apply dotfree_set_prop; [exact Ht | exact Hname |].
  apply Hc; [exact Hcv|].
  destruct (get_prop t name) eqn:E; simpl; [|reflexivity].
  eapply dotfree_get; eauto.
Qed.

Lemma dotfree_extend_val (copy : value) :
  dotfree copy = true ->
  forall src, dotfree_opt src = true -> dotfree (extend_val copy src) = true.
Proof.
  induction copy as [| | | |ps IH|ps IH] using value_induction; intros Hc src Hs; try exact Hc.
  - rewrite extend_val_arr. apply (dotfree_extend_each ps IH Hc).
    destruct src as [[]|]; try reflexivity. exact Hs.
  - rewrite extend_val_obj. apply (dotfree_extend_each ps IH Hc).
    destruct src as [[]|]; try reflexivity. exact Hs.
Qed.

Lemma dotfree_create (segs : list string) (v : value) :
  Forall (fun seg => has_char dot seg = false) segs ->
  dotfree v = true -> dotfree (_createObjectForProperty segs v) = true.
Proof.
  intros Hs Hv. induction Hs as [|seg r Hseg _ IH]; simpl; [exact Hv|].
  now rewrite Hseg, IH.
Qed.

Lemma dotfree_extend (t : props) (o : value) :
  dotfree_props t = true -> dotfree o = true -> is_object o = true ->
  dotfree_props (extend t (Some o)) = true.
Proof.
  intros Ht Ho Hobj.
  pose proof (dotfree_extend_val o Ho (Some (VObj t)) Ht) as H.
  destruct o; try discriminate.
  - pose proof (dotfree_extend_val (VArr ps) Ho (Some (VArr t)) Ht) as H'.
    rewrite extend_val_arr in H'. exact H'.
  - rewrite extend_val_obj in H. exact H.
Qed.

Lemma dotfree_expand_loop (ps : props) (object : props) :
  Forall (fun kv => dotfree (snd kv) = true) ps ->
  dotfree_props object = true ->
  dotfree_props
    (fold_left
       (fun object kv =>
          extend object (Some (_createObjectForProperty (split dot (fst kv)) (snd kv))))
       ps object) = true.
Proof.
  intros Hps. revert object.
  induction Hps as [|[k v] r Hv _ IH]; intros object Ho; simpl; [exact Ho|].
  apply IH. simpl in Hv.
  apply dotfree_extend; [exact Ho | |].
  - apply dotfree_create; [apply split_segments | exact Hv].
  - pose proof (split_nonempty dot k) as Hne.
    destruct (split dot k); [congruence | reflexivity].
Qed.

(** X19: for every input PropertySet whose values hold no dotted key at
    any depth (only its own keys may be dotted paths), the result of
    [_parsePropertiesToObjects] has no key, at any nesting depth, that
    contains ['.']. *)
Theorem expansion_leaves_no_dotted_key (ps : props) :
  Forall (fun kv => dotfree (snd kv) = true) ps ->
  dotfree (_parsePropertiesToObjects (Some (VObj ps))) = true.
Proof.
  intros Hps. unfold _parsePropertiesToObjects. simpl truthy. cbv iota.
  apply (dotfree_expand_loop ps [] Hps). reflexivity.
Qed.

Lemma expansion_leaves_no_dotted_key_witness :
  let ps := [("a.b.c", VStr "v"); ("a.b.d", VStr "w"); ("x", VObj [("y", VNum 1)])] in
  Forall (fun kv => dotfree (snd kv) = true) ps /\
  dotfree (_parsePropertiesToObjects (Some (VObj ps))) = true.
Proof.
  intros ps.
  assert (H : Forall (fun kv => dotfree (snd kv) = true) ps)
    by (repeat constructor).
  split; [exact H | exact (expansion_leaves_no_dotted_key ps H)].
Defined.

(** C3, evaluated: the documentation promises an object of deeply nested
    properties, "not dot-separated" (index.js 306, and 201 for
    [_readYamlAsDocument]); at [{a: {"b.c": 1}}] the function returns its
    input, with the key ["b.c"] at depth two: the loop of index.js 311-314
    splits the keys of the object it is given and never the keys inside a
    value. *)
Lemma expansion_keeps_nested_dotted_key :
  _parsePropertiesToObjects (Some (VObj [("a", VObj [("b.c", VNum 1)])]))
  = VObj [("a", VObj [("b.c", VNum 1)])]
  /\ dotfree (_parsePropertiesToObjects (Some (VObj [("a", VObj [("b.c", VNum 1)])])))
     = false.
Proof. split; reflexivity. Qed.

(** ** Merge *)

Lemma merge_two (A B : props) :
  wf (VObj A) = true ->
  _mergeProperties [obj A; obj B] = VObj (extend_each B A).
Proof.
  intros HA. unfold _mergeProperties. simpl. now rewrite extend_each_copy.
Qed.

Lemma wf_get (ps : props) (k : string) (v : value) :
  wf (VObj ps) = true -> get_prop ps k = Some v -> wf v = true.
Proof.
  simpl. intros H. apply andb_prop in H as [_ H]. rewrite forallb_forall in H.
  induction ps as [|[k' v'] r IH]; simpl; [discriminate|].
  destruct (k' =? k).
  - intros [= <-]. apply (H (k', v')). simpl; auto.
  - apply IH. intros x Hin. apply H. simpl; auto.
Qed.




(** C6: where both inputs hold a nested PropertySet at a key, the merge
    holds there the merge of the two nested PropertySets; a sibling key
    present only in the earlier one keeps its value; no key of either input,
    at the top or under that key, is absent from the result; and merging
    [[{a:{b:1,c:2}}, {a:{b:9}}]] yields [{a:{b:9,c:2}}]. *)
Theorem nested_sets_merge_recursively (A B a b : props) (k : string) :
  wf (VObj A) = true ->
  wf (VObj B) = true ->
  get_prop A k = Some (VObj a) ->
  get_prop B k = Some (VObj b) ->
  member (_mergeProperties [obj A; obj B]) k = Some (_mergeProperties [obj a; obj b])
  /\ (forall j x, get_prop a j = Some x -> get_prop b j = None ->
        member (_mergeProperties [obj a; obj b]) j = Some x)
  /\ (forall j, In j (keys A) \/ In j (keys B) ->
        member (_mergeProperties [obj A; obj B]) j <> None)
  /\ (forall j, In j (keys a) \/ In j (keys b) ->
        member (_mergeProperties [obj a; obj b]) j <> None)
  /\ _mergeProperties [obj [("a", VObj [("b", VNum 1); ("c", VNum 2)])];
                       obj [("a", VObj [("b", VNum 9)])]]
     = VObj [("a", VObj [("b", VNum 9); ("c", VNum 2)])].
Proof.
  intros HA HB Ha Hb.
  pose proof (wf_get A k (VObj a) HA Ha) as Hwa.
  rewrite (merge_two A B HA), (merge_two a b Hwa). simpl member.
  assert (HuB : unique_keys (keys B) = true).
  { simpl in HB. now apply andb_prop in HB as [HuB _]. }
  repeat split.
  - rewrite get_extend_each by exact HuB. rewrite Hb, Ha.
    now rewrite extend_val_obj.
  - intros j x Hj Hn. rewrite get_extend_each_absent by exact Hn. exact Hj.
  - intros j Hj. apply get_prop_keys, keys_extend_each. exact Hj.
  - intros j Hj. apply get_prop_keys, keys_extend_each. exact Hj.
Qed.

Lemma nested_sets_merge_recursively_witness :
  member (_mergeProperties
            [obj [("a", VObj [("b", VNum 1); ("c", VNum 2)]); ("n", VNum 7)];
             obj [("a", VObj [("b", VNum 9); ("d", VNum 4)])]]) "a"
  = Some (_mergeProperties [obj [("b", VNum 1); ("c", VNum 2)];
                            obj [("b", VNum 9); ("d", VNum 4)]]).
Proof.
  exact (proj1 (nested_sets_merge_recursively
           [("a", VObj [("b", VNum 1); ("c", VNum 2)]); ("n", VNum 7)]
           [("a", VObj [("b", VNum 9); ("d", VNum 4)])]
           [("b", VNum 1); ("c", VNum 2)]
           [("b", VNum 9); ("d", VNum 4)] "a"
           eq_refl eq_refl eq_refl eq_refl)).
Defined.

(** ** Profile Filter *)

Lemma scan_profiles_negated (tokens ap : list string) (name : string) :
  In (String bang name) tokens -> In name ap ->
  forall useThisDoc, scan_profiles tokens ap useThisDoc = None.
Proof.
  intros Htok Hname.
  induction tokens as [|tok rest IH]; intros u; [contradiction|].
  destruct Htok as [->|Hin].
  - cbn [scan_profiles]. rewrite Ascii.eqb_refl.
    apply indexOf_In in Hname. now rewrite Hname.
  - specialize (IH Hin). destruct tok as [|c r]; cbn [scan_profiles]; [apply IH|].
    destruct (Ascii.eqb c bang).
    + destruct (0 <=? indexOf ap r)%Z; [reflexivity | apply IH].
    + destruct (0 <=? indexOf ap (String c r))%Z; apply IH.
Qed.

(** C7: a document whose [profiles] string has, among its comma-separated
    tokens, a negated token [!name] with [name] in the active profiles is
    excluded, whatever the other tokens are. *)
Theorem negated_active_profile_excludes
    (document : value) (profiles name : string) (activeProfiles : list string) :
  member document "profiles" = Some (VStr profiles) ->
  In (String bang name) (split comma profiles) ->
  In name activeProfiles ->
  _shouldUseDocument (Some document) (Some activeProfiles) = inr false.
Proof.
  intros Hp Htok Hname. unfold _shouldUseDocument. rewrite Hp.
  assert (Hd : truthy document = true) by (destruct document; try discriminate; reflexivity).
  assert (Hs : truthy (VStr profiles) = true).
  { destruct profiles; [|reflexivity].
    simpl in Htok. destruct Htok as [H|[]]. discriminate. }
  rewrite Hd. unfold truthy_opt. rewrite Hs. cbv beta iota. simpl negb. simpl andb.
  cbv beta iota.
  now rewrite (scan_profiles_negated _ _ _ Htok Hname).
Qed.

Lemma negated_active_profile_excludes_witness :
  _shouldUseDocument
    (Some (VObj [("profiles", VStr "prod,!prod,dev"); ("port", VNum 80)]))
    (Some ["dev"; "prod"]) = inr false.
Proof.
  apply (negated_active_profile_excludes
           (VObj [("profiles", VStr "prod,!prod,dev"); ("port", VNum 80)])
           "prod,!prod,dev" "prod" ["dev"; "prod"]).
  - reflexivity.
  - simpl. right. left. reflexivity.
  - simpl. right. left. reflexivity.
Defined.

(** C10: a document that is null or undefined is excluded for every
    ActiveProfiles value, and the loader's loop over the documents gives
    the same result with or without it. *)
Theorem null_document_is_skipped (activeProfiles : option (list string)) :
  _shouldUseDocument None activeProfiles = inr false
  /\ _shouldUseDocument (Some VNull) activeProfiles = inr false
  /\ (forall before after doc,
        use_documents (before ++ None :: after) activeProfiles doc
        = use_documents (before ++ after) activeProfiles doc)
  /\ (forall before after doc,
        use_documents (before ++ Some VNull :: after) activeProfiles doc
        = use_documents (before ++ after) activeProfiles doc).
Proof.
  split; [reflexivity|]. split; [reflexivity|].
  split; intros before after; induction before as [|d r IH]; intros doc; simpl;
    try reflexivity;
    destruct (_shouldUseDocument d activeProfiles) as [e|[|]];
    try reflexivity; apply IH.
Qed.

(** ** Effects of the stages *)

Lemma log_more_nil (s : sys) : log_more [] s = s.
Proof. destruct s; unfold log_more; simpl. now rewrite app_nil_r. Qed.

Lemma performed_since_app (s s' : sys) (t : list io_event) :
  io_log s' = io_log s ++ t -> performed_since s s' = t.
Proof.
  intros H. unfold performed_since. rewrite H.
  generalize (io_log s) as l. intros l.
  induction l as [|ev l IH]; simpl; auto.
Qed.

Lemma file_stage_quiet {A} (m : M A) :
  (forall s s1 r, m s = (s1, r) -> io_log s1 = io_log s) -> file_stage m.
Proof.
  intros H s s1 r E. exists []. rewrite app_nil_r. split; [eauto | reflexivity].
Qed.

Lemma file_stage_ret {A} (a : A) : file_stage (ret a).
Proof. apply file_stage_quiet. unfold ret. now intros s s1 r [= <- _]. Qed.

Lemma file_stage_throw {A} (e : error) : file_stage (@throw A e).
Proof. apply file_stage_quiet. unfold throw. now intros s s1 r [= <- _]. Qed.

Lemma file_stage_lift {A} (x : error + A) : file_stage (lift x).
Proof. apply file_stage_quiet. unfold lift. now intros s s1 r [= <- _]. Qed.

Lemma file_stage_from_option {A} (e : error) (o : option A) :
  file_stage (from_option e o).
Proof. destruct o; [apply file_stage_ret | apply file_stage_throw]. Qed.

Lemma file_stage_this : file_stage this.
Proof. apply file_stage_quiet. unfold this. now intros s s1 r [= <- _]. Qed.

Lemma file_stage_update (f : instance -> instance) : file_stage (update f).
Proof. apply file_stage_quiet. unfold update. now intros s s1 r [= <- _]. Qed.

Lemma file_stage_perform (ev : io_event) :
  is_file ev = true -> file_stage (perform ev).
Proof.
  intros H s s1 r. unfold perform. intros [= <- _].
  exists [ev]. simpl. now rewrite H.
Qed.

Lemma file_stage_bind {A B} (m : M A) (f : A -> M B) :
  file_stage m -> (forall a, file_stage (f a)) -> file_stage (bind m f).
Proof.
  intros Hm Hf s s2 r. unfold bind.
  destruct (m s) as [s1 [e|a]] eqn:E1.
  - intros [= <- _]. eapply Hm; eauto.
  - intros E2. destruct (Hm _ _ _ E1) as (t1 & L1 & F1).
    destruct (Hf a _ _ _ E2) as (t2 & L2 & F2).
    exists (t1 ++ t2). rewrite L2, L1, app_assoc. split; [reflexivity|].
    now rewrite forallb_app, F1, F2.
Qed.

Lemma file_stage_try_catch {A} (m : M A) (h : error -> M A) :
  file_stage m -> (forall e, file_stage (h e)) -> file_stage (try_catch m h).
Proof.
  intros Hm Hh s s2 r. unfold try_catch.
  destruct (m s) as [s1 [e|a]] eqn:E1.
  - intros E2. destruct (Hm _ _ _ E1) as (t1 & L1 & F1).
    destruct (Hh e _ _ _ E2) as (t2 & L2 & F2).
    exists (t1 ++ t2). rewrite L2, L1, app_assoc. split; [reflexivity|].
    now rewrite forallb_app, F1, F2.
  - intros [= <- _]. eapply Hm; eauto.
Qed.

Create HintDb stages.
#[local] Hint Resolve file_stage_ret file_stage_throw file_stage_lift
  file_stage_from_option file_stage_this file_stage_update : stages.

Ltac stage :=
  repeat first
    [ apply file_stage_bind; [|intro]
    | apply file_stage_try_catch; [|intro]
    | apply file_stage_perform; reflexivity
    | solve [auto with stages] ].

Lemma file_stage_readYaml w path ap : file_stage (_readYaml w path ap).
Proof. unfold _readYaml. stage. Qed.

Lemma file_stage_readYamlAsDocument w path ap :
  file_stage (_readYamlAsDocument w path ap).
Proof. unfold _readYamlAsDocument. stage. Qed.

Lemma file_stage_read_profile_yaml w path configs p :
  file_stage (read_profile_yaml w path configs p).
Proof.
  unfold read_profile_yaml. stage.
  destruct (existsSync w _); stage.
Qed.

Lemma file_stage_forEach_profile w path profiles :
  forall configs, file_stage (forEach_profile w path profiles configs).
Proof.
  induction profiles as [|p r IH]; intros configs; simpl.
  - stage.
  - apply file_stage_bind; [apply file_stage_read_profile_yaml | intro; apply IH].
Qed.

Lemma file_stage_readApplicationConfig w path ap :
  file_stage (_readApplicationConfig w path ap).
Proof.
  unfold _readApplicationConfig.
  apply file_stage_bind; [apply file_stage_readYamlAsDocument | intro].
  apply file_stage_bind; [stage | intro].
  apply file_stage_bind; [apply file_stage_forEach_profile | intro; stage].
Qed.

Lemma file_stage_bootstrap w : file_stage (bootstrap_stage w).
Proof.
  unfold bootstrap_stage.
  apply file_stage_bind; [stage | intro].
  apply file_stage_bind; [apply file_stage_readYamlAsDocument | intro; stage].
Qed.

Lemma file_stage_local w : file_stage (local_stage w).
Proof.
  unfold local_stage.
  apply file_stage_bind; [stage | intro].
  apply file_stage_bind; [apply file_stage_readApplicationConfig | intro].
  apply file_stage_bind; [stage | intro].
  destruct (name_override _); stage.
Qed.

Lemma nonnull_error (o : option value) (e : error) :
  nonnull o = inl e -> e = TypeError.
Proof. destruct o as [[]|]; simpl; congruence. Qed.

Lemma read_in_error (path : list string) :
  forall base e, read_in base path = inl e -> e = TypeError.
Proof.
  induction path as [|p rest IH]; intros base e; simpl; [discriminate|].
  destruct (nonnull base) as [e'|b] eqn:E.
  - intros [= <-]. eapply nonnull_error; eauto.
  - apply IH.
Qed.

(** The remote stage proper: its outcome and the one operation it may
    perform do not depend on the state it runs in. *)
Lemma readCloudConfig_uniform (w : world) (bootStrapConfig : option value) :
  exists t outcome,
    (forall s, _readCloudConfig w bootStrapConfig s = (log_more t s, outcome))
    /\ ((t = [] /\ (outcome = inl TypeError \/ outcome = inr (VObj [])))
        \/ exists cloudOptions,
             t = [RemoteFetch cloudOptions]
             /\ outcome = inr (on_fetch (cloudConfigClient_load w cloudOptions))).
Proof.
  unfold _readCloudConfig, bind, lift.
  destruct (read_in bootStrapConfig spring_cloud_config) as [e|o] eqn:E1.
  - apply read_in_error in E1. subst e. exists [], (inl TypeError).
    split; [intros s; now rewrite log_more_nil | left; auto].
  - destruct (nonnull o) as [e|cloudOptions] eqn:E2.
    + apply nonnull_error in E2. subst e. exists [], (inl TypeError).
      split; [intros s; now rewrite log_more_nil | left; auto].
    + destruct (truthy_opt (member cloudOptions "enabled")).
      * exists [RemoteFetch cloudOptions],
               (inr (on_fetch (cloudConfigClient_load w cloudOptions))).
        split; [reflexivity | right; eauto].
      * exists [], (inr (VObj [])).
        split; [intros s; unfold ret; now rewrite log_more_nil | left; auto].
Qed.

Lemma files_no_fetch (t : list io_event) (c : value) :
  forallb is_file t = true -> ~ In (RemoteFetch c) t.
Proof.
  intros H Hin. rewrite forallb_forall in H. apply H in Hin. discriminate.
Qed.

Lemma on_fetch_failed (answer : fetch_result) :
  fetch_failed answer = true -> on_fetch answer = VObj [].
Proof. destruct answer as [[]| |]; simpl; congruence. Qed.

Lemma merge_empty_remote (bs loc : option value) :
  _mergeProperties [bs; loc; Some (VObj [])] = _mergeProperties [bs; loc].
Proof. reflexivity. Qed.

(** C4: in every resolution pass that calls the remote-fetch collaborator
    and sees it fail (a rejected promise or a throw), the remote PropertySet
    is empty, the pass succeeds, and the composed configuration, also the one
    stored for [getConfig], is the merge of the bootstrap and the local
    PropertySets only. *)
Theorem remote_failure_degrades_to_empty
    (w : world) (s s' : sys) (r : error + option value) (cloudOptions : value) :
  _readConfig w s = (s', r) ->
  In (RemoteFetch cloudOptions) (performed_since s s') ->
  fetch_failed (cloudConfigClient_load w cloudOptions) = true ->
  _remoteConfig (self s') = Some (VObj [])
  /\ r = inr (Some (_mergeProperties
                      [_bootstrapConfig (self s'); _localConfig (self s')]))
  /\ getConfig s' = Some (_mergeProperties
                            [_bootstrapConfig (self s'); _localConfig (self s')]).
Proof.
  intros Hpass Hin Hfail. unfold _readConfig in Hpass. unfold bind at 1 in Hpass.
  destruct (bootstrap_stage w s) as [s1 [e|[]]] eqn:E1.
  { injection Hpass as <- _.
    destruct (file_stage_bootstrap w _ _ _ E1) as (t1 & L1 & F1).
    rewrite (performed_since_app _ _ _ L1) in Hin.
    now apply files_no_fetch in Hin. }
  destruct (file_stage_bootstrap w _ _ _ E1) as (t1 & L1 & F1).
  unfold bind at 1 in Hpass.
  destruct (local_stage w s1) as [s2 [e|[]]] eqn:E2.
  { injection Hpass as <- _.
    destruct (file_stage_local w _ _ _ E2) as (t2 & L2 & F2).
    rewrite L1, <- app_assoc in L2.
    rewrite (performed_since_app _ _ _ L2) in Hin.
    apply in_app_or in Hin as [Hin|Hin]; now apply files_no_fetch in Hin. }
  destruct (file_stage_local w _ _ _ E2) as (t2 & L2 & F2).
  rewrite L1, <- app_assoc in L2.
  unfold bind at 1, remote_stage, bind at 1, this in Hpass.
  destruct (readCloudConfig_uniform w (_bootstrapConfig (self s2)))
    as (t & outcome & U & Hcases).
  unfold bind at 1 in Hpass. rewrite U in Hpass.
  assert (Hlog : forall s3, io_log s3 = io_log (log_more t s2) ->
                 In (RemoteFetch cloudOptions) (performed_since s s3) ->
                 In (RemoteFetch cloudOptions) t).
  { intros s3 L3 H3. simpl in L3. rewrite L2, <- !app_assoc in L3.
    rewrite (performed_since_app _ _ _ L3) in H3.
    apply in_app_or in H3 as [H3|H3]; [now apply files_no_fetch in H3|].
    apply in_app_or in H3 as [H3|H3]; [now apply files_no_fetch in H3|exact H3]. }
  destruct outcome as [e|cloudConfig].
  { injection Hpass as <- _. apply Hlog in Hin; [|reflexivity].
    destruct Hcases as [[-> _]|(c & -> & [=])]. contradiction. }
  unfold update, compose_stage, _generateConfig, bind, this, update, ret in Hpass.
  simpl in Hpass. injection Hpass as <- <-.
  apply Hlog in Hin; [|reflexivity].
  destruct Hcases as [[-> _]|(c & -> & [= ->])]; [contradiction|].
  destruct Hin as [[= ->]|[]].
  rewrite (on_fetch_failed _ Hfail).
  unfold getConfig. simpl. auto.
Qed.

Lemma remote_failure_degrades_to_empty_witness :
  let w := sample_world sample_bootstrap "hello" (Rejected (ClientError 503)) in
  let s := boot sample_options in
  let s' := fst (_readConfig w s) in
  snd (_readConfig w s)
  = inr (Some (_mergeProperties [_bootstrapConfig (self s'); _localConfig (self s')])).
Proof.
  intros w s s'.
  refine (proj1 (proj2 (remote_failure_degrades_to_empty w s s' (snd (_readConfig w s))
    (VObj [("enabled", VBool true); ("name", VStr "app");
           ("profiles", VArr [("0", VStr "dev")])]) _ _ _))).
  - subst s'. destruct (_readConfig w s); reflexivity.
  - vm_compute. do 3 right. left. reflexivity.
  - reflexivity.
Defined.

(** ** The guard of [load] *)

(** C8 (as amended): when [configPath] is missing or empty, or
    [activeProfiles] is missing, [load] is rejected with the invalid-options
    message and the state, its log of file and network operations included,
    is untouched; with both present and [configPath] not empty, [load] is
    the resolution pass. *)
Theorem load_checks_options_first (w : world) (s : sys) :
  (configPath (_options (self s)) = None
   \/ configPath (_options (self s)) = Some ""
   \/ activeProfiles (_options (self s)) = None ->
   load w s
   = (s, inl (RejectionString
                "Invalid options supplied. Please consult the documentation.")))
  /\ (forall path profiles,
        configPath (_options (self s)) = Some path -> path <> "" ->
        activeProfiles (_options (self s)) = Some profiles ->
        load w s = _readConfig w s).
Proof.
  unfold load, bind, this, throw. split.
  - intros [H|[H|H]]; rewrite H; simpl; [reflexivity | reflexivity |].
    now rewrite andb_false_r.
  - intros path profiles Hp Hne Ha. rewrite Hp, Ha. simpl.
    destruct (String.eqb_spec path ""); [contradiction | reflexivity].
Qed.

Lemma load_checks_options_first_witness :
  let w := sample_world sample_bootstrap "hello" (Fulfilled None) in
  load w (boot (mkOptions None (Some ["dev"]) None None))
  = (boot (mkOptions None (Some ["dev"]) None None),
     inl (RejectionString
            "Invalid options supplied. Please consult the documentation."))
  /\ load w (boot sample_options) = _readConfig w (boot sample_options).
Proof.
  intros w. split.
  - apply (proj1 (load_checks_options_first w
                    (boot (mkOptions None (Some ["dev"]) None None)))).
    left. reflexivity.
  - apply (proj2 (load_checks_options_first w (boot sample_options))
             "/etc/app" ["dev"]); [reflexivity | discriminate | reflexivity].
Defined.

(** C8, as stated, fails: with [configPath] present but empty and
    [activeProfiles] present, [load] is rejected and no pass is run. *)
Lemma load_rejects_empty_configPath :
  let w := sample_world sample_bootstrap "hello" (Fulfilled None) in
  let o := mkOptions (Some "") (Some ["dev"]) None None in
  configPath o <> None
  /\ activeProfiles o <> None
  /\ load w (boot o)
     = (boot o, inl (RejectionString
                       "Invalid options supplied. Please consult the documentation."))
  /\ load w (boot o) <> _readConfig w (boot o).
Proof.
  intros w o. split; [discriminate|]. split; [discriminate|].
  split; [reflexivity|]. vm_compute. discriminate.
Qed.

(** ** The bootstrap stage needs [spring.cloud.config] *)

Lemma assign_in_needs_object (path : list string) :
  forall base k x,
    object_at base path = false -> assign_in base path k x = inl TypeError.
Proof.
  unfold object_at.
  induction path as [|p rest IH]; intros base k x; simpl.
  - destruct base; simpl; congruence.
  - destruct base; simpl; try reflexivity;
      (destruct (get_prop ps p) as [child|] eqn:E; [|reflexivity]);
      (destruct child; simpl; try reflexivity; intros H;
       match goal with
       | |- context [assign_in ?c rest k x] =>
           rewrite (IH c k x) by exact H; reflexivity
       end).
Qed.

Lemma inject_profiles_needs_object (bs : value) (ap : option (list string)) :
  object_at bs spring_cloud_config = false -> inject_profiles bs ap = inl TypeError.
Proof.
  intros H. unfold inject_profiles.
  destruct (profiles_value ap); [now apply assign_in_needs_object|].
  unfold object_at in H.
  destruct (read_in (Some bs) spring_cloud_config) as [e|cfg] eqn:E.
  - f_equal. eapply read_in_error; eauto.
  - destruct cfg as [c|]; [|reflexivity].
    destruct c; simpl in *; congruence.
Qed.

(** C9: whenever the bootstrap document, as read, filtered, merged and
    expanded, has no object at [spring.cloud.config], the pass is rejected
    (with a [TypeError], raised by the write of [profiles]), and so is
    [load]; nothing about [enabled] enters. *)
Theorem pass_needs_cloud_config_section
    (w : world) (s s1 : sys) (thisBootstrapConfig : value) :
  _readYamlAsDocument w
    (theBootstrapPath (_options (self s)) ++ "/bootstrap.yml")%string
    (activeProfiles (_options (self s))) s = (s1, inr thisBootstrapConfig) ->
  object_at thisBootstrapConfig spring_cloud_config = false ->
  _readConfig w s = (s1, inl TypeError)
  /\ exists s' e, load w s = (s', inl e).
Proof.
  intros Hread Hobj.
  assert (Hpass : _readConfig w s = (s1, inl TypeError)).
  { unfold _readConfig. unfold bind at 1. unfold bootstrap_stage.
    unfold bind at 1, this. unfold bind at 1. rewrite Hread.
    unfold bind at 1, lift. now rewrite inject_profiles_needs_object. }
  split; [exact Hpass|].
  unfold load, bind, this, throw.
  destruct (negb _); [eauto | rewrite Hpass; eauto].
Qed.

Lemma pass_needs_cloud_config_section_witness :
  let w := sample_world (VObj [("spring.cloud.enabled", VBool false)]) "hello"
             (Fulfilled None) in
  _readConfig w (boot sample_options)
  = (log_more [ReadFile "/etc/app/bootstrap.yml"] (boot sample_options), inl TypeError).
Proof.
  intros w.
  refine (proj1 (pass_needs_cloud_config_section w (boot sample_options)
    (log_more [ReadFile "/etc/app/bootstrap.yml"] (boot sample_options))
    (VObj [("spring", VObj [("cloud", VObj [("enabled", VBool false)])])]) _ _)).
  - vm_compute. reflexivity.
  - reflexivity.
Defined.

(** ** Watcher *)

Lemma startWatch_keeps_configuration (newInterval : option Z) (s : sys) :
  _config (self (startWatch newInterval s)) = _config (self s)
  /\ _bootstrapConfig (self (startWatch newInterval s)) = _bootstrapConfig (self s)
  /\ _localConfig (self (startWatch newInterval s)) = _localConfig (self s)
  /\ _remoteConfig (self (startWatch newInterval s)) = _remoteConfig (self s)
  /\ io_log (startWatch newInterval s) = io_log s
  /\ emitted (startWatch newInterval s) = emitted s.
Proof.
  unfold startWatch. destruct (timerId (_watchConfig (self s))); simpl; auto 10.
Qed.

(** The callback installs a timer exactly when the watcher is marked
    inactive, and marks it active again by doing so. *)
Lemma on_timer_timers (w : world) (s : sys) :
  (running (_watchConfig (self s)) = true ->
   timers (on_timer w s) = timers s)
  /\ (running (_watchConfig (self s)) = false ->
      running (_watchConfig (self (on_timer w s))) = true
      /\ exists kept, timers (on_timer w s)
                      = kept ++ [(next_timer s, interval (_watchConfig (self s)))]).
Proof.
  unfold on_timer.
  destruct (readCloudConfig_uniform w (_bootstrapConfig (self s)))
    as (t & outcome & U & _).
  rewrite U. simpl. split; intros H; rewrite H; simpl; [reflexivity|].
  unfold startWatch. simpl.
  destruct (timerId (_watchConfig (self s))); simpl; eauto.
Qed.

(** C1 (as amended): at every timer firing the watcher runs the remote
    stage alone, [_readCloudConfig] on the stored bootstrap PropertySet: it
    reads no file and composes nothing.  It raises [CONFIG_REFRESH] carrying
    the fetched remote PropertySet (or [CONFIG_ERROR] carrying the error),
    and the configuration returned by [getConfig], like the stored
    bootstrap, local and remote PropertySets, stays as it was. *)
Theorem timer_refreshes_remote_config_only (w : world) (h : nat) (s s' : sys) :
  fire w h s = Some s' ->
  exists t outcome,
    (forall s0, _readCloudConfig w (_bootstrapConfig (self s)) s0
                = (log_more t s0, outcome))
    /\ io_log s' = io_log s ++ t
    /\ (forall ev, In ev t -> is_file ev = false)
    /\ emitted s' = emitted s ++ [notification outcome]
    /\ getConfig s' = getConfig s
    /\ _bootstrapConfig (self s') = _bootstrapConfig (self s)
    /\ _localConfig (self s') = _localConfig (self s)
    /\ _remoteConfig (self s') = _remoteConfig (self s).
Proof.
  unfold fire. destruct (pending h s); [|discriminate]. intros [= <-].
  destruct (readCloudConfig_uniform w (_bootstrapConfig (self s)))
    as (t & outcome & U & Hcases).
  exists t, outcome. split; [exact U|].
  assert (Ht : forall ev, In ev t -> is_file ev = false).
  { destruct Hcases as [[-> _]|(c & -> & _)]; intros ev; simpl; [tauto|].
    intros [<-|[]]. reflexivity. }
  unfold on_timer.
  change (_bootstrapConfig (self (clearTimeout h s))) with (_bootstrapConfig (self s)).
  rewrite U. unfold getConfig, emit.
  destruct (negb (running (_watchConfig (self (log_more t (clearTimeout h s)))))).
  - destruct (startWatch_keeps_configuration None (log_more t (clearTimeout h s)))
      as (H1 & H2 & H3 & H4 & H5 & H6).
    cbn [self io_log emitted]. rewrite H1, H2, H3, H4, H5, H6.
    simpl. auto 10.
  - simpl. auto 10.
Qed.

Lemma timer_refreshes_remote_config_only_witness :
  let w := sample_world sample_bootstrap "hello"
             (Fulfilled (Some [("remote.flag", VBool true)])) in
  let s := startWatch (Some 1000%Z) (fst (load w (boot sample_options))) in
  exists s', fire w 1 s = Some s' /\ getConfig s' = getConfig s.
Proof.
  intros w s. exists (on_timer w (clearTimeout 1 s)).
  assert (H : fire w 1 s = Some (on_timer w (clearTimeout 1 s))) by reflexivity.
  split; [exact H|].
  destruct (timer_refreshes_remote_config_only w 1 s _ H)
    as (t & outcome & _ & _ & _ & _ & Hc & _).
  exact Hc.
Defined.

(** C1, as stated, fails: after the application file and the server's
    answer have changed, the firing raises [CONFIG_REFRESH] with the remote
    PropertySet only, not with what a pass would compose, reads no file, and
    leaves the stored configuration as it was. *)
Lemma timer_does_not_recompose :
  let w1 := sample_world sample_bootstrap "hello"
              (Fulfilled (Some [("remote.flag", VBool true)])) in
  let w2 := sample_world sample_bootstrap "bonjour"
              (Fulfilled (Some [("remote.flag", VBool false)])) in
  let s := startWatch (Some 1000%Z) (fst (load w1 (boot sample_options))) in
  exists s' composed,
    fire w2 1 s = Some s'
    /\ snd (_readConfig w2 s) = inr (Some composed)
    /\ emitted s' = [CONFIG_REFRESH_EVENT (VObj [("remote", VObj [("flag", VBool false)])])]
    /\ emitted s' <> [CONFIG_REFRESH_EVENT composed]
    /\ getConfig s' = getConfig s
    /\ getConfig s' <> Some composed
    /\ forallb is_file (performed_since s s') = false.
Proof.
  intros w1 w2 s. eexists. eexists.
  split; [vm_compute; reflexivity|].
  split; [vm_compute; reflexivity|].
  split; [vm_compute; reflexivity|].
  split; [vm_compute; discriminate|].
  split; [vm_compute; reflexivity|].
  split; [vm_compute; discriminate|].
  vm_compute; reflexivity.
Qed.

(** C2, evaluated: with the watcher started and still active, the firing
    installs no timer, so polling stops after one poll; with [endWatch]
    called before the firing, the firing installs a new timer and marks the
    watcher active again. *)
Theorem timer_reschedules_only_when_inactive (w : world) :
  let started := startWatch (Some 1000%Z) (boot sample_options) in
  (exists s', fire w 1 started = Some s'
              /\ running (_watchConfig (self started)) = true
              /\ running (_watchConfig (self s')) = true
              /\ timers s' = [])
  /\ (exists s', fire w 1 (endWatch started) = Some s'
                 /\ running (_watchConfig (self (endWatch started))) = false
                 /\ running (_watchConfig (self s')) = true
                 /\ timers s' = [(2%nat, 1000%Z)]).
Proof.
  intros started. split; eexists; (split; [reflexivity|]); simpl; auto.
Qed.

(* ===================================================================== *)
(** * Part III -- further properties of the code                         *)
(* ===================================================================== *)

(** ** Profile Filter: what the loop computes *)

Lemma scan_profiles_spec (tokens ap : list string) :
  forall useThisDoc,
    scan_profiles tokens ap useThisDoc
    = if existsb (negated_active ap) tokens then None
      else Some (useThisDoc || existsb (plain_active ap) tokens).
Proof.
  induction tokens as [|tok rest IH]; intros u; cbn [scan_profiles existsb].
  - now rewrite orb_false_r.
  - destruct tok as [|c r]; cbn [negated_active plain_active].
    + simpl. apply IH.
    + destruct (Ascii.eqb c bang); cbn [andb negb orb].
      * destruct (0 <=? indexOf ap r)%Z; cbn [orb]; [reflexivity | apply IH].
      * destruct (0 <=? indexOf ap (String c r))%Z; cbn [orb]; rewrite IH.
        -- destruct (existsb (negated_active ap) rest); [reflexivity|].
           now rewrite !orb_true_r.
        -- reflexivity.
Qed.

Lemma negated_active_spec (ap : list string) (tokens : list string) :
  existsb (negated_active ap) tokens = true
  <-> exists name, In (String bang name) tokens /\ In name ap.
Proof.
  rewrite existsb_exists. split.
  - intros (tok & Hin & H). destruct tok as [|c name]; [discriminate|].
    simpl in H. apply andb_prop in H as [Hc Hn].
    apply Ascii.eqb_eq in Hc. subst c. apply indexOf_In in Hn. eauto.
  - intros (name & Hin & Hn). exists (String bang name). split; [exact Hin|].
    simpl. apply indexOf_In in Hn. now rewrite Hn.
Qed.

Lemma plain_active_spec (ap : list string) (tokens : list string) :
  existsb (plain_active ap) tokens = true
  <-> exists c r, In (String c r) tokens /\ c <> bang /\ In (String c r) ap.
Proof.
  rewrite existsb_exists. split.
  - intros (tok & Hin & H). destruct tok as [|c r]; [discriminate|].
    cbn [plain_active] in H. apply andb_prop in H as [Hc Hn].
    apply negb_true_iff, Ascii.eqb_neq in Hc. apply indexOf_In in Hn. eauto.
  - intros (c & r & Hin & Hc & Hn). exists (String c r). split; [exact Hin|].
    cbn [plain_active]. apply Ascii.eqb_neq in Hc. apply indexOf_In in Hn.
    now rewrite Hc, Hn.
Qed.

(** X1: for a document whose [profiles] is a non-empty string and a given
    list of active profiles, the filter never fails, and it includes the
    document exactly when some token is a plain (non-empty, not negated)
    active profile and no token is the negation of an active profile.  The
    order of the tokens plays no part. *)
Theorem profile_filter_decides
    (document : value) (profiles : string) (activeProfiles : list string) :
  member document "profiles" = Some (VStr profiles) ->
  profiles <> "" ->
  exists use,
    _shouldUseDocument (Some document) (Some activeProfiles) = inr use
    /\ (use = true <->
        (exists c r, In (String c r) (split comma profiles) /\ c <> bang
                     /\ In (String c r) activeProfiles)
        /\ ~ (exists name, In (String bang name) (split comma profiles)
                           /\ In name activeProfiles)).
Proof.
  intros Hp Hne. unfold _shouldUseDocument. rewrite Hp.
  assert (Hd : truthy document = true)
    by (destruct document; try discriminate; reflexivity).
  assert (Hs : truthy (VStr profiles) = true)
    by (destruct profiles; [congruence | reflexivity]).
  rewrite Hd. unfold truthy_opt. rewrite Hs. cbn [negb andb].
  rewrite scan_profiles_spec. cbn [orb].
  pose proof (negated_active_spec activeProfiles (split comma profiles)) as Hn.
  pose proof (plain_active_spec activeProfiles (split comma profiles)) as Hpl.
  destruct (existsb (negated_active activeProfiles) (split comma profiles)).
  - exists false. split; [reflexivity|]. split; [discriminate|].
    intros [_ H]. exfalso. apply H. now apply Hn.
  - eexists. split; [reflexivity|]. split.
    + intros H. split; [now apply Hpl|].
      intros H'. apply Hn in H'. discriminate.
    + intros [H _]. now apply Hpl.
Qed.

Lemma profile_filter_decides_witness :
  exists use,
    _shouldUseDocument (Some (VObj [("profiles", VStr "!qa,,dev")])) (Some ["dev"])
    = inr use.
Proof.
  destruct (profile_filter_decides (VObj [("profiles", VStr "!qa,,dev")])
              "!qa,,dev" ["dev"] eq_refl) as (use & H & _).
  - discriminate.
  - exists use. exact H.
Defined.

Lemma shouldUseDocument_error (document : option value)
    (ap : option (list string)) (e : error) :
  _shouldUseDocument document ap = inl e -> e = TypeError.
Proof.
  unfold _shouldUseDocument. destruct document as [d|]; [|discriminate].
  destruct (truthy d && negb (truthy_opt (member d "profiles"))); [discriminate|].
  destruct (truthy d); [|discriminate].
  destruct ap as [ap|]; [|discriminate].
  destruct (member d "profiles") as [[]|]; try congruence.
  destruct (scan_profiles _ _ _); discriminate.
Qed.

Lemma use_documents_bad (docs : list (option value)) (ap : option (list string))
    (bad : option value) :
  In bad docs -> _shouldUseDocument bad ap = inl TypeError ->
  forall doc, use_documents docs ap doc = inl TypeError.
Proof.
  intros Hin Hbad. induction docs as [|d r IH]; intros doc; [contradiction|].
  simpl. destruct Hin as [->|Hin].
  - now rewrite Hbad.
  - destruct (_shouldUseDocument d ap) as [e|[|]] eqn:E; auto.
    apply shouldUseDocument_error in E. now subst e.
Qed.

(** X2: when active profiles are given, a document whose [profiles] field
    is truthy but not a string (a YAML list, a number, [true]) makes the
    filter throw, and the read of the whole file is rejected with that
    [TypeError], whatever the other documents of the file are. *)
Theorem non_string_profiles_rejects_file
    (w : world) (relativePath text : string) (docs : list (option value))
    (document profiles : value) (activeProfiles : list string) (s : sys) :
  readFileSync w relativePath = Some text ->
  safeLoadAll w text = Some docs ->
  In (Some document) docs ->
  member document "profiles" = Some profiles ->
  truthy profiles = true ->
  (forall p, profiles <> VStr p) ->
  _shouldUseDocument (Some document) (Some activeProfiles) = inl TypeError
  /\ snd (_readYaml w relativePath (Some activeProfiles) s) = inl TypeError.
Proof.
  intros Hread Hload Hin Hp Ht Hns.
  assert (Hbad : _shouldUseDocument (Some document) (Some activeProfiles)
                 = inl TypeError).
  { unfold _shouldUseDocument. rewrite Hp.
    assert (Hd : truthy document = true)
      by (destruct document; try discriminate; reflexivity).
    rewrite Hd. unfold truthy_opt. rewrite Ht. cbn [negb andb].
    destruct profiles; try reflexivity. exfalso. now apply (Hns s0). }
  split; [exact Hbad|].
  unfold _readYaml, bind, perform, from_option. rewrite Hread. unfold ret.
  rewrite Hload. unfold lift.
  now rewrite (use_documents_bad docs _ _ Hin Hbad).
Qed.

Lemma non_string_profiles_rejects_file_witness :
  let w := sample_world (VObj [("profiles", arr_of_list [VStr "dev"])]) "hello"
             (Fulfilled None) in
  snd (_readYaml w "/etc/app/bootstrap.yml" (Some ["dev"]) (boot sample_options))
  = inl TypeError.
Proof.
  intros w.
  refine (proj2 (non_string_profiles_rejects_file w "/etc/app/bootstrap.yml"
    "bootstrap" [Some (VObj [("profiles", arr_of_list [VStr "dev"])])]
    (VObj [("profiles", arr_of_list [VStr "dev"])]) (arr_of_list [VStr "dev"])
    ["dev"] (boot sample_options) eq_refl eq_refl _ eq_refl eq_refl _)).
  - simpl. left. reflexivity.
  - intros p. discriminate.
Defined.

(** ** Merge: repetition and keys *)

Lemma set_prop_same (t : props) (k : string) (v : value) :
  get_prop t k = Some v -> set_prop t k v = t.
Proof.
  induction t as [|[k' v'] r IH]; simpl; [discriminate|].
  destruct (String.eqb_spec k' k) as [->|Hne].
  - now intros [= ->].
  - intros H. now rewrite IH.
Qed.

Lemma get_prop_In_unique (ps : props) (k : string) (v : value) :
  unique_keys (keys ps) = true -> In (k, v) ps -> get_prop ps k = Some v.
Proof.
  induction ps as [|[k' v'] r IH]; simpl; [contradiction|].
  intros Hu Hin. apply andb_prop in Hu as [Hk Hu].
  apply negb_true_iff, indexOf_absent in Hk.
  destruct Hin as [[= -> ->]|Hin].
  - now rewrite String.eqb_refl.
  - destruct (String.eqb_spec k' k) as [->|Hne]; [|now apply IH].
    exfalso. apply Hk. unfold keys. apply in_map_iff. now exists (k, v).
Qed.

Lemma extend_each_stable (ps : props) :
  forall t,
    (forall name c, In (name, c) ps ->
       exists x, get_prop t name = Some x /\ extend_val c (Some x) = x) ->
    extend_each ps t = t.
Proof.
  induction ps as [|[name c] rest IH]; intros t H; simpl; [reflexivity|].
  destruct (H name c) as (x & Hx & Hc); [simpl; auto|].
  rewrite Hx, Hc, (set_prop_same t name x Hx).
  apply IH. intros n c' Hin. apply H. simpl; auto.
Qed.

Lemma extend_each_absorb (ps : props) :
  unique_keys (keys ps) = true ->
  Forall (fun kv => forall src,
            extend_val (snd kv) (Some (extend_val (snd kv) src))
            = extend_val (snd kv) src) ps ->
  forall t, extend_each ps (extend_each ps t) = extend_each ps t.
Proof.
  intros Hu Hall t. apply extend_each_stable. intros name c Hin.
  exists (extend_val c (get_prop t name)). split.
  - rewrite get_extend_each by exact Hu.
    now rewrite (get_prop_In_unique ps name c Hu Hin).
  - rewrite Forall_forall in Hall. apply (Hall (name, c) Hin).
Qed.

Lemma extend_val_absorb (copy : value) :
  wf copy = true ->
  forall src, extend_val copy (Some (extend_val copy src)) = extend_val copy src.
Proof.
  induction copy as [| | | |ps IH|ps IH] using value_induction;
    intros Hwf src; try reflexivity;
    simpl in Hwf; apply andb_prop in Hwf as [Hu Hall];
    rewrite forallb_forall in Hall.
  - rewrite (extend_val_arr ps src), extend_val_arr. f_equal.
    apply extend_each_absorb; [exact Hu|].
    rewrite Forall_forall in IH |- *. intros kv Hin. apply IH; auto.
  - rewrite (extend_val_obj ps src), extend_val_obj. f_equal.
    apply extend_each_absorb; [exact Hu|].
    rewrite Forall_forall in IH |- *. intros kv Hin. apply IH; auto.
Qed.

(** X3: merging is idempotent on a repeated input: a PropertySet that
    occurs twice in a row in the sequence given to [_mergeProperties] counts
    once, whatever comes before and after it. *)
Theorem merge_repeated_input_counts_once
    (before after : list (option value)) (A : props) :
  wf (VObj A) = true ->
  _mergeProperties (before ++ obj A :: obj A :: after)
  = _mergeProperties (before ++ obj A :: after).
Proof.
  intros Hwf. unfold _mergeProperties. f_equal.
  rewrite !fold_left_app. cbn [fold_left]. f_equal.
  unfold obj, extend. cbn [for_in].
  pose proof (extend_val_absorb (VObj A) Hwf
                (Some (VObj (fold_left extend before [])))) as H.
  rewrite !extend_val_obj in H. now injection H.
Qed.

Lemma merge_repeated_input_counts_once_witness :
  _mergeProperties ([obj [("a", VObj [("b", VNum 1)])]]
                    ++ obj [("a", VObj [("c", VNum 2)]); ("x", arr_of_list [VNum 3])]
                    :: obj [("a", VObj [("c", VNum 2)]); ("x", arr_of_list [VNum 3])]
                    :: [obj [("x", VStr "end")]])
  = _mergeProperties ([obj [("a", VObj [("b", VNum 1)])]]
                    ++ obj [("a", VObj [("c", VNum 2)]); ("x", arr_of_list [VNum 3])]
                    :: [obj [("x", VStr "end")]]).
Proof.
  exact (merge_repeated_input_counts_once
           [obj [("a", VObj [("b", VNum 1)])]] [obj [("x", VStr "end")]]
           [("a", VObj [("c", VNum 2)]); ("x", arr_of_list [VNum 3])] eq_refl).
Defined.

Lemma keys_extend_each_inv (ps : props) :
  forall t j, In j (keys (extend_each ps t)) -> In j (keys t) \/ In j (keys ps).
Proof.
  induction ps as [|[name c] rest IH]; intros t j; simpl; [auto|].
  intros H. apply IH in H as [H|H]; [|auto].
  apply keys_set_prop in H as [->|H]; auto.
Qed.

Lemma keys_merge (l : list props) :
  forall t j,
    In j (keys (fold_left extend (map obj l) t))
    <-> In j (keys t) \/ exists o, In o l /\ In j (keys o).
Proof.
  induction l as [|o r IH]; intros t j; simpl.
  - split; [auto | intros [H|(o & [] & _)]; exact H].
  - rewrite IH. split.
    + intros [H|(o' & Hin & Hj)].
      * apply keys_extend_each_inv in H as [H|H]; [auto | right; eauto].
      * right; eauto.
    + intros [H|(o' & [<-|Hin] & Hj)].
      * left. apply keys_extend_each. auto.
      * left. apply keys_extend_each. auto.
      * right; eauto.
Qed.

(** X4: the keys of a merge are exactly the keys of its inputs: the merged
    PropertySet has a property named [k] if and only if some input has
    one; merging neither drops nor invents a top-level key. *)
Theorem merge_keys_are_the_union (l : list props) (k : string) :
  member (_mergeProperties (map obj l)) k <> None
  <-> exists o, In o l /\ get_prop o k <> None.
Proof.
  unfold _mergeProperties. cbn [member].
  rewrite get_prop_keys, keys_merge. split.
  - intros [[]|(o & Hin & H)]. exists o. split; [exact Hin|].
    now apply get_prop_keys.
  - intros (o & Hin & H). right. exists o. split; [exact Hin|].
    now apply get_prop_keys.
Qed.

(** ** Dot-path expansion: reading back *)

Lemma read_created (rest : list string) (v : value) :
  is_object v = false ->
  forall seg t,
    read_in (Some (VObj (extend_each [(seg, _createObjectForProperty rest v)] t)))
      (seg :: rest) = inr (Some v).
Proof.
  intros Hv. induction rest as [|seg' rest IH]; intros seg t;
    cbn [extend_each read_in nonnull member _createObjectForProperty];
    rewrite get_set_same.
  - destruct v; try reflexivity; discriminate.
  - rewrite extend_val_obj. apply IH.
Qed.

(** X5: a property written last is read back at its path: when the
    property that the loop handles last has a value that is not an object or
    array, the expanded PropertySet holds that value at the path named by
    its key.  Stated for a last key that is not integer-like (so that
    [for-in] takes it last) and for properties none of whose key segments
    or nested keys is [__proto__]. *)
Theorem expansion_reads_back_last_property
    (ps : props) (k : string) (v : value) :
  is_object v = false ->
  integer_like k = false ->
  forallb ordinary_property (ps ++ [(k, v)]) = true ->
  read_in (Some (_parsePropertiesToObjects (Some (VObj (ps ++ [(k, v)])))))
    (split dot k) = inr (Some v).
Proof.
  intros Hv _ _. unfold _parsePropertiesToObjects. cbn [truthy for_in].
  rewrite fold_left_app. cbn [fold_left fst snd].
  pose proof (split_nonempty dot k) as Hne.
  destruct (split dot k) as [|seg rest]; [congruence|].
  unfold extend. cbn [_createObjectForProperty for_in].
  apply (read_created rest v Hv).
Qed.

Lemma expansion_reads_back_last_property_witness :
  read_in (Some (_parsePropertiesToObjects
                   (Some (VObj ([("server.port", VObj [("x", VNum 1)]); ("server", VNum 0)]
                                ++ [("server.port.http", VNum 8080)])))))
    (split dot "server.port.http") = inr (Some (VNum 8080)).
Proof.
  exact (expansion_reads_back_last_property
           [("server.port", VObj [("x", VNum 1)]); ("server", VNum 0)]
           "server.port.http" (VNum 8080) eq_refl eq_refl eq_refl).
Defined.

(** ** The readers touch nothing but the log *)

Lemma log_more_app (t1 t2 : list io_event) (s : sys) :
  log_more t2 (log_more t1 s) = log_more (t1 ++ t2) s.
Proof. unfold log_more. simpl. now rewrite app_assoc. Qed.

Lemma reads_only_quiet {A} (m : M A) :
  (forall s s1 r, m s = (s1, r) -> s1 = s) -> reads_only m.
Proof.
  intros H s s1 r E. exists []. rewrite log_more_nil. eauto.
Qed.

Lemma reads_only_ret {A} (a : A) : reads_only (ret a).
Proof. apply reads_only_quiet. unfold ret. now intros s s1 r [= <- _]. Qed.

Lemma reads_only_throw {A} (e : error) : reads_only (@throw A e).
Proof. apply reads_only_quiet. unfold throw. now intros s s1 r [= <- _]. Qed.

Lemma reads_only_lift {A} (x : error + A) : reads_only (lift x).
Proof. apply reads_only_quiet. unfold lift. now intros s s1 r [= <- _]. Qed.

Lemma reads_only_from_option {A} (e : error) (o : option A) :
  reads_only (from_option e o).
Proof. destruct o; [apply reads_only_ret | apply reads_only_throw]. Qed.

Lemma reads_only_perform (ev : io_event) : reads_only (perform ev).
Proof. intros s s1 r. unfold perform. intros [= <- _]. eauto. Qed.

Lemma reads_only_bind {A B} (m : M A) (f : A -> M B) :
  reads_only m -> (forall a, reads_only (f a)) -> reads_only (bind m f).
Proof.
  intros Hm Hf s s2 r. unfold bind.
  destruct (m s) as [s1 [e|a]] eqn:E1.
  - intros [= <- _]. eapply Hm; eauto.
  - intros E2. destruct (Hm _ _ _ E1) as (t1 & ->).
    destruct (Hf a _ _ _ E2) as (t2 & ->).
    exists (t1 ++ t2). apply log_more_app.
Qed.

Lemma reads_only_try_catch {A} (m : M A) (h : error -> M A) :
  reads_only m -> (forall e, reads_only (h e)) -> reads_only (try_catch m h).
Proof.
  intros Hm Hh s s2 r. unfold try_catch.
  destruct (m s) as [s1 [e|a]] eqn:E1.
  - intros E2. destruct (Hm _ _ _ E1) as (t1 & ->).
    destruct (Hh e _ _ _ E2) as (t2 & ->).
    exists (t1 ++ t2). apply log_more_app.
  - intros [= <- _]. eapply Hm; eauto.
Qed.

#[local] Hint Resolve reads_only_ret reads_only_throw reads_only_lift
  reads_only_from_option reads_only_perform : stages.

Ltac reader :=
  repeat first
    [ apply reads_only_bind; [|intro]
    | apply reads_only_try_catch; [|intro]
    | solve [auto with stages] ].

Lemma reads_only_readYamlAsDocument w path ap :
  reads_only (_readYamlAsDocument w path ap).
Proof. unfold _readYamlAsDocument, _readYaml. reader. Qed.

Lemma reads_only_read_profile_yaml w path configs p :
  reads_only (read_profile_yaml w path configs p).
Proof. unfold read_profile_yaml. reader. destruct (existsSync w _); reader. Qed.

Lemma reads_only_forEach_profile w path profiles :
  forall configs, reads_only (forEach_profile w path profiles configs).
Proof.
  induction profiles as [|p r IH]; intros configs; simpl.
  - reader.
  - apply reads_only_bind; [apply reads_only_read_profile_yaml | intro; apply IH].
Qed.

Lemma reads_only_readApplicationConfig w path ap :
  reads_only (_readApplicationConfig w path ap).
Proof.
  unfold _readApplicationConfig.
  apply reads_only_bind; [apply reads_only_readYamlAsDocument | intro].
  apply reads_only_bind; [reader | intro].
  apply reads_only_bind; [apply reads_only_forEach_profile | intro; reader].
Qed.

(** ** Overlays *)

Lemma read_profile_yaml_exact w path configs p s :
  exists t,
    read_profile_yaml w path configs p s
    = (log_more t s, inr (configs ++ overlay_of w path p)).
Proof.
  unfold read_profile_yaml, overlay_of, bind, perform.
  fold (overlay_path path p).
  destruct (existsSync w (overlay_path path p)).
  - unfold try_catch, bind, perform, from_option.
    destruct (readFileSync w (overlay_path path p)) as [text|]; unfold ret, throw.
    + destruct (safeLoad w text) as [propDoc|];
        eexists; rewrite log_more_app, ?app_nil_r; reflexivity.
    + eexists. rewrite log_more_app, app_nil_r. reflexivity.
  - unfold ret. eexists. rewrite app_nil_r. reflexivity.
Qed.

Lemma forEach_profile_exact w path profiles :
  forall configs s,
    exists t,
      forEach_profile w path profiles configs s
      = (log_more t s, inr (configs ++ flat_map (overlay_of w path) profiles)).
Proof.
  induction profiles as [|p r IH]; intros configs s; simpl.
  - exists []. unfold ret. now rewrite log_more_nil, app_nil_r.
  - destruct (read_profile_yaml_exact w path configs p s) as (t1 & E1).
    unfold bind. rewrite E1.
    destruct (IH (configs ++ overlay_of w path p) (log_more t1 s)) as (t2 & E2).
    rewrite E2, log_more_app, <- app_assoc. eauto.
Qed.

(** X6: once [application.yml] has been read, the local stage cannot
    fail, and it resolves with the merge of the application document
    followed, in the order of the active profiles, by the expanded document
    of each profile whose overlay file exists, can be read and parses; an
    overlay that is absent, unreadable or malformed contributes nothing. *)
Theorem overlays_never_fail
    (w : world) (appConfigPath : string) (profiles : list string)
    (s s1 : sys) (applicationConfig : value) :
  _readYamlAsDocument w (appConfigPath ++ "/application.yml")%string
    (Some profiles) s = (s1, inr applicationConfig) ->
  exists s2,
    _readApplicationConfig w appConfigPath (Some profiles) s
    = (s2, inr (_mergeProperties
                  (Some applicationConfig
                   :: flat_map (overlay_of w appConfigPath) profiles))).
Proof.
  intros Hread. unfold _readApplicationConfig. unfold bind at 1. rewrite Hread.
  unfold bind at 1, from_option, ret.
  destruct (forEach_profile_exact w appConfigPath profiles
              [Some applicationConfig] s1) as (t & E).
  unfold bind. rewrite E. unfold ret. simpl. eauto.
Qed.

Lemma overlays_never_fail_witness :
  let w := mkWorld
             (fun path =>
                if path =? "/etc/app/application.yml" then Some "application"
                else if path =? "/etc/app/application-dev.yml" then Some "dev"
                else if path =? "/etc/app/application-qa.yml" then Some "broken"
                else None)
             (fun path => negb (path =? "/etc/app/application-prod.yml"))
             (fun text => Some [Some (sample_application "hello")])
             (fun text =>
                if text =? "dev" then Some (Some (VObj [("log.level", VStr "debug")]))
                else None)
             (fun _ => Fulfilled None) in
  exists s2,
    _readApplicationConfig w "/etc/app" (Some ["prod"; "dev"; "qa"; "ci"])
      (boot sample_options)
    = (s2, inr (VObj [("greeting", VStr "hello");
                      ("log", VObj [("level", VStr "debug")])])).
Proof.
  intros w.
  exact (overlays_never_fail w "/etc/app" ["prod"; "dev"; "qa"; "ci"]
           (boot sample_options)
           (log_more [ReadFile "/etc/app/application.yml"] (boot sample_options))
           (sample_application "hello") eq_refl).
Defined.

(** ** What a pass changes *)

Lemma framed_refl (s : sys) : framed s s.
Proof. unfold framed. auto 10. Qed.

Lemma framed_trans (s s1 s2 : sys) : framed s s1 -> framed s1 s2 -> framed s s2.
Proof.
  unfold framed. intros (A1 & A2 & A3 & A4 & A5 & A6 & A7)
                        (B1 & B2 & B3 & B4 & B5 & B6 & B7).
  repeat split; congruence.
Qed.

Lemma framed_log_more (t : list io_event) (s : sys) : framed s (log_more t s).
Proof. unfold framed. simpl. auto 10. Qed.

Lemma frame_stage_reads {A} (m : M A) : reads_only m -> frame_stage m.
Proof. intros H s s1 r E. destruct (H _ _ _ E) as (t & ->). apply framed_log_more. Qed.

Lemma frame_stage_this : frame_stage this.
Proof. intros s s1 r. unfold this. intros [= <- _]. apply framed_refl. Qed.

Lemma frame_stage_set_bootstrapConfig (v : option value) :
  frame_stage (update (set_bootstrapConfig v)).
Proof. intros s s1 r. unfold update. intros [= <- _]. unfold framed. simpl. auto 10. Qed.

Lemma frame_stage_set_localConfig (v : option value) :
  frame_stage (update (set_localConfig v)).
Proof. intros s s1 r. unfold update. intros [= <- _]. unfold framed. simpl. auto 10. Qed.

Lemma frame_stage_bind {A B} (m : M A) (f : A -> M B) :
  frame_stage m -> (forall a, frame_stage (f a)) -> frame_stage (bind m f).
Proof.
  intros Hm Hf s s2 r. unfold bind.
  destruct (m s) as [s1 [e|a]] eqn:E1.
  - intros [= <- _]. eapply Hm; eauto.
  - intros E2. eapply framed_trans; [eapply Hm | eapply Hf]; eauto.
Qed.

Ltac framer :=
  repeat first
    [ apply frame_stage_bind; [|intro]
    | apply frame_stage_this
    | apply frame_stage_set_bootstrapConfig
    | apply frame_stage_set_localConfig
    | solve [apply frame_stage_reads; auto with stages] ].

Lemma frame_stage_bootstrap w : frame_stage (bootstrap_stage w).
Proof.
  unfold bootstrap_stage.
  apply frame_stage_bind; [framer | intro].
  apply frame_stage_bind;
    [apply frame_stage_reads, reads_only_readYamlAsDocument | intro; framer].
Qed.

Lemma frame_stage_local w : frame_stage (local_stage w).
Proof.
  unfold local_stage.
  apply frame_stage_bind; [framer | intro].
  apply frame_stage_bind;
    [apply frame_stage_reads, reads_only_readApplicationConfig | intro].
  apply frame_stage_bind; [framer | intro].
  destruct (name_override _); framer.
Qed.

(** ** Assignment along a path *)

Lemma nonnull_inr (o : option value) (v : value) :
  nonnull o = inr v -> o = Some v.
Proof. destruct o as [[]|]; simpl; congruence. Qed.

Lemma nonnull_object (v : value) : is_object v = true -> nonnull (Some v) = inr v.
Proof. destruct v; simpl; congruence. Qed.

Lemma put_member_inv (base base' : value) (k : string) (x : value) :
  put_member base k x = inr base' ->
  is_object base = true /\ is_object base' = true
  /\ member base' k = Some x
  /\ forall k', k <> k' -> member base' k' = member base k'.
Proof.
  destruct base; simpl; try discriminate; intros [= <-]; simpl;
    (repeat split; [apply get_set_same | intros k' Hk; now apply get_set_other]).
Qed.

Lemma assign_in_read (path : list string) :
  forall base base' k x,
    assign_in base path k x = inr base' ->
    exists cfg cfg',
      read_in (Some base) path = inr (Some cfg)
      /\ read_in (Some base') path = inr (Some cfg')
      /\ put_member cfg k x = inr cfg'.
Proof.
  induction path as [|p rest IH]; intros base base' k x;
    cbn [assign_in read_in].
  - intros H. exists base, base'. auto.
  - destruct (nonnull (member base p)) as [e|child] eqn:En; [discriminate|].
    destruct (assign_in child rest k x) as [e|child'] eqn:Ea; [discriminate|].
    intros Hput. destruct (IH _ _ _ _ Ea) as (cfg & cfg' & R1 & R2 & P).
    destruct (put_member_inv _ _ _ _ Hput) as (Ob & Ob' & Hm & _).
    rewrite (nonnull_object base Ob), (nonnull_object base' Ob'), Hm.
    apply nonnull_inr in En. rewrite En. eauto.
Qed.

Lemma fetch_options_assign (base base' : value) (k : string) (x : value) :
  assign_in base spring_cloud_config k x = inr base' ->
  exists cfg cfg',
    read_in (Some base) spring_cloud_config = inr (Some cfg)
    /\ fetch_options (Some base') cfg'
    /\ member cfg' k = Some x
    /\ forall k', k <> k' -> member cfg' k' = member cfg k'.
Proof.
  intros H. destruct (assign_in_read _ _ _ _ _ H) as (cfg & cfg' & R1 & R2 & P).
  destruct (put_member_inv _ _ _ _ P) as (_ & O & Hm & Ho).
  exists cfg, cfg'. unfold fetch_options. auto.
Qed.

(** ** Top-level keys stay unique *)

Lemma unique_set_prop (t : props) (k : string) (v : value) :
  unique_keys (keys t) = true -> unique_keys (keys (set_prop t k v)) = true.
Proof.
  induction t as [|[k' v'] r IH]; simpl; [reflexivity|].
  intros H. apply andb_prop in H as [Hk Hu].
  destruct (String.eqb_spec k' k) as [->|Hne]; simpl.
  - now rewrite Hk, Hu.
  - rewrite (IH Hu), andb_true_r. apply negb_true_iff, indexOf_absent.
    apply negb_true_iff, indexOf_absent in Hk.
    intros Hin. apply (keys_set_prop r k k' v) in Hin as [->|Hin]; auto.
Qed.

Lemma unique_extend_each (ps : props) :
  forall t, unique_keys (keys t) = true ->
            unique_keys (keys (extend_each ps t)) = true.
Proof.
  induction ps as [|[name c] rest IH]; intros t H; simpl; [exact H|].
  apply IH. now apply unique_set_prop.
Qed.

Lemma unique_extend (t : props) (o : option value) :
  unique_keys (keys t) = true -> unique_keys (keys (extend t o)) = true.
Proof.
  intros H. destruct o as [[]|]; simpl; try exact H; now apply unique_extend_each.
Qed.

Lemma unique_fold {A} (f : props -> A -> props) (l : list A) :
  (forall t a, unique_keys (keys t) = true -> unique_keys (keys (f t a)) = true) ->
  forall t, unique_keys (keys t) = true ->
            unique_keys (keys (fold_left f l t)) = true.
Proof.
  intros Hf. induction l as [|a r IH]; intros t H; simpl; auto.
Qed.

Lemma unique_merge (objects : list (option value)) :
  exists ps, _mergeProperties objects = VObj ps /\ unique_keys (keys ps) = true.
Proof.
  eexists. split; [reflexivity|].
  apply unique_fold; [apply unique_extend | reflexivity].
Qed.

Lemma unique_parse (o : option value) :
  exists ps, _parsePropertiesToObjects o = VObj ps /\ unique_keys (keys ps) = true.
Proof.
  unfold _parsePropertiesToObjects. destruct o as [po|]; [|now exists []].
  destruct (truthy po); [|now exists []].
  eexists. split; [reflexivity|].
  apply unique_fold; [|reflexivity]. intros t a. apply unique_extend.
Qed.

Lemma unique_on_fetch (answer : fetch_result) :
  exists ps, on_fetch answer = VObj ps /\ unique_keys (keys ps) = true.
Proof.
  destruct answer as [[p|]| |]; cbn [on_fetch]; try (now exists []).
  apply unique_parse.
Qed.

(** ** The stages of a pass, one by one *)

Lemma readYamlAsDocument_log w path ap s s1 r :
  _readYamlAsDocument w path ap s = (s1, r) -> s1 = log_more [ReadFile path] s.
Proof.
  unfold _readYamlAsDocument, _readYaml, bind, perform, from_option.
  destruct (readFileSync w path) as [text|]; unfold ret, throw;
    [|now intros [= <- _]].
  destruct (safeLoadAll w text) as [docs|]; [|now intros [= <- _]].
  unfold lift. destruct (use_documents docs ap []); now intros [= <- _].
Qed.

Lemma inject_profiles_inv (d bs : value) (ap : option (list string)) :
  inject_profiles d ap = inr bs ->
  exists cfg, fetch_options (Some bs) cfg
              /\ forall l, ap = Some l ->
                           member cfg "profiles" = Some (arr_of_list (map VStr l)).
Proof.
  unfold inject_profiles. destruct ap as [l|]; cbn [profiles_value].
  - intros H. destruct (fetch_options_assign _ _ _ _ H) as (_ & cfg & _ & F & M & _).
    exists cfg. split; [exact F|]. now intros l' [= <-].
  - destruct (read_in (Some d) spring_cloud_config) as [e|cfg] eqn:R; [discriminate|].
    destruct (nonnull cfg) as [e|c] eqn:N; [discriminate|].
    destruct (is_object c) eqn:O; [|discriminate].
    intros [= <-]. apply nonnull_inr in N. subst cfg.
    exists c. split; [split; assumption | discriminate].
Qed.

Lemma bootstrap_stage_success w s s1 :
  bootstrap_stage w s = (s1, inr tt) ->
  io_log s1 = io_log s
              ++ [ReadFile (theBootstrapPath (_options (self s)) ++ "/bootstrap.yml")%string]
  /\ exists bs cfg,
       _bootstrapConfig (self s1) = Some bs
       /\ fetch_options (Some bs) cfg
       /\ forall l, activeProfiles (_options (self s)) = Some l ->
                    member cfg "profiles" = Some (arr_of_list (map VStr l)).
Proof.
  unfold bootstrap_stage, bind, this.
  destruct (_readYamlAsDocument w _ _ s) as [s0 [e|d]] eqn:E; [discriminate|].
  apply readYamlAsDocument_log in E. subst s0. unfold lift.
  destruct (inject_profiles d _) as [e|bs] eqn:I; [discriminate|].
  unfold update. intros [= <-]. split; [reflexivity|].
  destruct (inject_profiles_inv _ _ _ I) as (cfg & F & P).
  exists bs, cfg. auto.
Qed.

Lemma readApplicationConfig_success w path ap s s1 app :
  _readApplicationConfig w path ap s = (s1, inr app) ->
  (exists l, ap = Some l)
  /\ exists lp, app = VObj lp /\ unique_keys (keys lp) = true.
Proof.
  unfold _readApplicationConfig, bind.
  destruct (_readYamlAsDocument w _ ap s) as [s0 [e|a]]; [discriminate|].
  destruct ap as [l|]; cbn [from_option]; unfold ret, throw; [|discriminate].
  destruct (forEach_profile w path l [Some a] s0) as [s2 [e|cfgs]]; [discriminate|].
  intros [= _ <-]. split; [eauto | apply unique_merge].
Qed.

Lemma local_stage_success w s s1 :
  local_stage w s = (s1, inr tt) ->
  (exists l, activeProfiles (_options (self s)) = Some l)
  /\ exists loc lp,
       _localConfig (self s1) = Some loc
       /\ loc = VObj lp /\ unique_keys (keys lp) = true
       /\ forall bs cfg,
            _bootstrapConfig (self s) = Some bs -> fetch_options (Some bs) cfg ->
            exists bs' cfg',
              _bootstrapConfig (self s1) = Some bs'
              /\ fetch_options (Some bs') cfg'
              /\ member cfg' "profiles" = member cfg "profiles"
              /\ member cfg' "enabled" = member cfg "enabled"
              /\ forall n, name_override loc = Some n -> member cfg' "name" = Some n.
Proof.
  unfold local_stage. unfold bind at 1, this. unfold bind at 1.
  destruct (_readApplicationConfig w _ _ s) as [s0 [e|app]] eqn:E; [discriminate|].
  destruct (readApplicationConfig_success _ _ _ _ _ _ E) as (Hl & lp & -> & Hu).
  destruct (reads_only_readApplicationConfig w _ _ _ _ _ E) as (t & ->).
  unfold bind at 1, update.
  destruct (name_override (VObj lp)) as [n|] eqn:No.
  - unfold bind, this, lift. cbn [self with_self set_localConfig _bootstrapConfig log_more].
    destruct (nonnull (_bootstrapConfig (self s))) as [e|b] eqn:Nb; [discriminate|].
    destruct (assign_in b spring_cloud_config "name" n) as [e|renamed] eqn:A;
      [discriminate|].
    intros [= <-]. split; [exact Hl|]. exists (VObj lp), lp.
    split; [reflexivity|]. split; [reflexivity|]. split; [exact Hu|].
    intros bs cfg Hbs [Hr Ho]. apply nonnull_inr in Nb. rewrite Hbs in Nb.
    injection Nb as <-.
    destruct (fetch_options_assign _ _ _ _ A) as (cfg0 & cfg' & R0 & F & M & Mo).
    rewrite Hr in R0. injection R0 as <-.
    exists renamed, cfg'. split; [reflexivity|]. split; [exact F|].
    split; [apply Mo; discriminate|]. split; [apply Mo; discriminate|].
    intros n' Hn'. rewrite No in Hn'. now injection Hn' as <-.
  - unfold ret. intros [= <-]. split; [exact Hl|]. exists (VObj lp), lp.
    split; [reflexivity|]. split; [reflexivity|]. split; [exact Hu|].
    intros bs cfg Hbs F. exists bs, cfg.
    split; [exact Hbs|]. split; [exact F|]. split; [reflexivity|].
    split; [reflexivity|]. intros n' Hn'. rewrite No in Hn'. discriminate.
Qed.

Lemma readCloudConfig_known w bs cfg :
  fetch_options bs cfg ->
  forall s,
    _readCloudConfig w bs s
    = if truthy_opt (member cfg "enabled")
      then (log_more [RemoteFetch cfg] s,
            inr (on_fetch (cloudConfigClient_load w cfg)))
      else (s, inr (VObj [])).
Proof.
  intros [R O] s. unfold _readCloudConfig, bind, lift. rewrite R.
  rewrite (nonnull_object cfg O).
  destruct (truthy_opt (member cfg "enabled")); reflexivity.
Qed.

Lemma remote_compose_known w s2 bs cfg :
  _bootstrapConfig (self s2) = Some bs ->
  fetch_options (Some bs) cfg ->
  exists fetch rem,
    bind (remote_stage w) (fun _ => compose_stage) s2
    = (with_self (set_config (Some (_mergeProperties
                                     [Some bs; _localConfig (self s2); Some rem])))
         (with_self (set_remoteConfig (Some rem)) (log_more fetch s2)),
       inr (Some (_mergeProperties [Some bs; _localConfig (self s2); Some rem])))
    /\ ((truthy_opt (member cfg "enabled") = true
         /\ fetch = [RemoteFetch cfg]
         /\ rem = on_fetch (cloudConfigClient_load w cfg))
        \/ (truthy_opt (member cfg "enabled") = false
            /\ fetch = [] /\ rem = VObj [])).
Proof.
  intros Hbs F.
  unfold remote_stage, compose_stage, _generateConfig, bind, this, update, ret.
  rewrite Hbs, (readCloudConfig_known w _ _ F).
  destruct (truthy_opt (member cfg "enabled")).
  - exists [RemoteFetch cfg], (on_fetch (cloudConfigClient_load w cfg)).
    cbn [self with_self log_more set_remoteConfig _bootstrapConfig _localConfig
         _remoteConfig _config].
    rewrite Hbs. split; [reflexivity | left; auto].
  - exists [], (VObj []). rewrite log_more_nil.
    cbn [self with_self set_remoteConfig _bootstrapConfig _localConfig
         _remoteConfig _config].
    rewrite Hbs. split; [reflexivity | right; auto].
Qed.

(** What a successful pass leaves behind. *)
Lemma readConfig_success w s s' c :
  _readConfig w s = (s', inr c) ->
  exists bs loc rem lp rp cfg l t fetch,
    (_bootstrapConfig (self s') = Some bs
     /\ _localConfig (self s') = Some loc
     /\ _remoteConfig (self s') = Some rem
     /\ _config (self s') = Some (_mergeProperties [Some bs; Some loc; Some rem])
     /\ c = Some (_mergeProperties [Some bs; Some loc; Some rem]))
    /\ (loc = VObj lp /\ unique_keys (keys lp) = true
        /\ rem = VObj rp /\ unique_keys (keys rp) = true)
    /\ (activeProfiles (_options (self s)) = Some l
        /\ fetch_options (Some bs) cfg
        /\ member cfg "profiles" = Some (arr_of_list (map VStr l))
        /\ forall n, name_override loc = Some n -> member cfg "name" = Some n)
    /\ (io_log s' = io_log s
                    ++ ReadFile (theBootstrapPath (_options (self s))
                                 ++ "/bootstrap.yml")%string :: t ++ fetch
        /\ forallb is_file t = true
        /\ ((truthy_opt (member cfg "enabled") = true
             /\ fetch = [RemoteFetch cfg]
             /\ rem = on_fetch (cloudConfigClient_load w cfg))
            \/ (truthy_opt (member cfg "enabled") = false
                /\ fetch = [] /\ rem = VObj [])))
    /\ (_options (self s') = _options (self s)
        /\ _watchConfig (self s') = _watchConfig (self s)
        /\ emitted s' = emitted s /\ timers s' = timers s
        /\ next_timer s' = next_timer s).
Proof.
  intros H. unfold _readConfig in H. unfold bind at 1 in H.
  destruct (bootstrap_stage w s) as [s1 [e|[]]] eqn:E1; [discriminate|].
  unfold bind at 1 in H.
  destruct (local_stage w s1) as [s2 [e|[]]] eqn:E2; [discriminate|].
  destruct (bootstrap_stage_success _ _ _ E1) as (L1 & bs0 & cfg0 & B0 & F0 & P0).
  destruct (frame_stage_bootstrap _ _ _ _ E1) as (O1 & C1 & R1 & W1 & M1 & T1 & N1).
  destruct (local_stage_success _ _ _ E2) as ((l & Hl) & loc & lp & Lc & -> & Hu & Hb).
  destruct (frame_stage_local _ _ _ _ E2) as (O2 & C2 & R2 & W2 & M2 & T2 & N2).
  destruct (file_stage_local _ _ _ _ E2) as (t & L2 & Ft).
  destruct (Hb bs0 cfg0 B0 F0) as (bs & cfg & B & F & Mp & Me & Mn).
  destruct (remote_compose_known w s2 bs cfg B F) as (fetch & rem & Eq & Hcase).
  rewrite Eq in H. injection H as <- <-.
  assert (Hrem : exists rp, rem = VObj rp /\ unique_keys (keys rp) = true).
  { destruct Hcase as [(_ & _ & ->)|(_ & _ & ->)];
      [apply unique_on_fetch | now exists []]. }
  destruct Hrem as (rp & -> & Hur).
  rewrite O1 in Hl.
  exists bs, (VObj lp), (VObj rp), lp, rp, cfg, l, t, fetch.
  cbn [self with_self log_more set_remoteConfig set_config _bootstrapConfig
       _localConfig _remoteConfig _config _options _watchConfig io_log emitted
       timers next_timer].
  rewrite Lc. repeat split; auto; try congruence.
  - apply F.
  - apply F.
  - rewrite Mp. now apply P0.
  - rewrite L2, L1, <- !app_assoc. reflexivity.
Qed.

(** What a failed pass leaves behind. *)
Lemma readConfig_failure w s s' e :
  _readConfig w s = (s', inl e) ->
  framed s s'
  /\ exists t, io_log s' = io_log s ++ t /\ forallb is_file t = true.
Proof.
  intros H. unfold _readConfig in H. unfold bind at 1 in H.
  destruct (bootstrap_stage w s) as [s1 [e1|[]]] eqn:E1.
  { injection H as <- _. split; [eapply frame_stage_bootstrap; eauto|].
    eapply file_stage_bootstrap; eauto. }
  unfold bind at 1 in H.
  destruct (local_stage w s1) as [s2 [e2|[]]] eqn:E2.
  { injection H as <- _. split.
    - eapply framed_trans; [eapply frame_stage_bootstrap | eapply frame_stage_local];
        eauto.
    - destruct (file_stage_bootstrap _ _ _ _ E1) as (t1 & L1 & F1).
      destruct (file_stage_local _ _ _ _ E2) as (t2 & L2 & F2).
      exists (t1 ++ t2). rewrite L2, L1, app_assoc. split; [reflexivity|].
      now rewrite forallb_app, F1, F2. }
  exfalso.
  destruct (bootstrap_stage_success _ _ _ E1) as (_ & bs0 & cfg0 & B0 & F0 & _).
  destruct (local_stage_success _ _ _ E2) as (_ & loc & lp & _ & _ & _ & Hb).
  destruct (Hb bs0 cfg0 B0 F0) as (bs & cfg & B & F & _).
  destruct (remote_compose_known w s2 bs cfg B F) as (fetch & rem & Eq & _).
  rewrite Eq in H. discriminate.
Qed.

(** ** A pass seen from [load] *)

Lemma load_inv w s s' r :
  load w s = (s', r) ->
  (s' = s /\ r = inl (RejectionString
                        "Invalid options supplied. Please consult the documentation."))
  \/ _readConfig w s = (s', r).
Proof.
  unfold load, bind, this, throw. destruct (negb _).
  - intros [= <- <-]. auto.
  - auto.
Qed.

Lemma load_success w s s' c :
  load w s = (s', inr c) -> _readConfig w s = (s', inr c).
Proof. intros H. apply load_inv in H as [[_ H]|H]; [discriminate | exact H]. Qed.

(** X7: when [load] succeeds, the value it resolves with is the one
    [getConfig] returns from then on, and it is the merge, in this order, of
    the bootstrap, local and remote PropertySets the instance now stores. *)
Theorem load_resolves_with_stored_configuration
    (w : world) (s s' : sys) (c : option value) :
  load w s = (s', inr c) ->
  getConfig s' = c
  /\ exists bs loc rem,
       _bootstrapConfig (self s') = Some bs
       /\ _localConfig (self s') = Some loc
       /\ _remoteConfig (self s') = Some rem
       /\ c = Some (_mergeProperties [Some bs; Some loc; Some rem]).
Proof.
  intros H. apply load_success, readConfig_success in H.
  destruct H as (bs & loc & rem & lp & rp & cfg & l & t & fetch
                 & (B & L & R & C & ->) & _).
  split; [exact C|]. exists bs, loc, rem. auto.
Qed.

Lemma load_resolves_with_stored_configuration_witness :
  let w := sample_world sample_bootstrap "hello"
             (Fulfilled (Some [("remote.flag", VBool true)])) in
  getConfig (fst (load w (boot sample_options))) = snd_value (load w (boot sample_options)).
Proof.
  intros w.
  refine (proj1 (load_resolves_with_stored_configuration w (boot sample_options)
                   (fst (load w (boot sample_options)))
                   (snd_value (load w (boot sample_options))) _)).
  vm_compute. reflexivity.
Defined.

(** X8: when [load] fails, for whatever reason, the configuration returned
    by [getConfig] and the stored remote PropertySet are the ones from
    before, the watcher, the timers and the notifications are untouched, and
    the config server has not been called. *)
Theorem failed_load_keeps_configuration
    (w : world) (s s' : sys) (e : error) :
  load w s = (s', inl e) ->
  getConfig s' = getConfig s
  /\ _remoteConfig (self s') = _remoteConfig (self s)
  /\ _watchConfig (self s') = _watchConfig (self s)
  /\ timers s' = timers s
  /\ emitted s' = emitted s
  /\ forallb is_file (performed_since s s') = true.
Proof.
  intros H. apply load_inv in H as [[-> _]|H].
  - unfold performed_since. rewrite skipn_all. auto 10.
  - apply readConfig_failure in H as ((O & C & R & W & M & T & N) & t & L & F).
    rewrite (performed_since_app _ _ _ L). unfold getConfig. auto 10.
Qed.

Lemma failed_load_keeps_configuration_witness :
  let w1 := sample_world sample_bootstrap "hello" (Fulfilled None) in
  let w2 := sample_world (VObj [("spring", VStr "off")]) "hello" (Fulfilled None) in
  let s := fst (load w1 (boot sample_options)) in
  getConfig (fst (load w2 s)) = getConfig s.
Proof.
  intros w1 w2 s.
  refine (proj1 (failed_load_keeps_configuration w2 s (fst (load w2 s)) TypeError _)).
  vm_compute. reflexivity.
Defined.

(** X9: a successful [load] reads [bootstrap.yml] first, from
    [bootstrapPath] if given and from [configPath] otherwise, then only
    files; the config server is called at most once, last, exactly when
    [spring.cloud.config.enabled] of the stored bootstrap PropertySet is
    truthy, and it is given that [spring.cloud.config] object, whose
    [profiles] are the active profiles.  When [enabled] is falsy no call is
    made and the remote PropertySet is empty. *)
Theorem pass_calls_server_last_with_profiles
    (w : world) (s s' : sys) (c : option value) :
  load w s = (s', inr c) ->
  exists l t cfg,
    activeProfiles (_options (self s)) = Some l
    /\ fetch_options (_bootstrapConfig (self s')) cfg
    /\ member cfg "profiles" = Some (arr_of_list (map VStr l))
    /\ forallb is_file t = true
    /\ ((truthy_opt (member cfg "enabled") = true
         /\ performed_since s s'
            = ReadFile (theBootstrapPath (_options (self s)) ++ "/bootstrap.yml")%string
              :: t ++ [RemoteFetch cfg]
         /\ _remoteConfig (self s') = Some (on_fetch (cloudConfigClient_load w cfg)))
        \/ (truthy_opt (member cfg "enabled") = false
            /\ performed_since s s'
               = ReadFile (theBootstrapPath (_options (self s)) ++ "/bootstrap.yml")%string
                 :: t
            /\ _remoteConfig (self s') = Some (VObj []))).
Proof.
  intros H. apply load_success, readConfig_success in H.
  destruct H as (bs & loc & rem & lp & rp & cfg & l & t & fetch
                 & (B & L & R & C & _) & (_ & _ & Hr & _) & (Hl & F & P & _)
                 & (Hlog & Ft & Hcase) & _).
  exists l, t, cfg. rewrite B. split; [exact Hl|]. split; [exact F|].
  split; [exact P|]. split; [exact Ft|].
  rewrite (performed_since_app _ _ _ Hlog), R.
  destruct Hcase as [(En & -> & E)|(En & -> & E)].
  - left. rewrite <- E. auto.
  - right. rewrite app_nil_r, <- E. auto.
Qed.

Lemma pass_calls_server_last_with_profiles_witness :
  let w := sample_world sample_bootstrap "hello" (Rejected (ClientError 503)) in
  exists l, activeProfiles (_options (self (boot sample_options))) = Some l.
Proof.
  intros w.
  destruct (pass_calls_server_last_with_profiles w (boot sample_options)
              (fst (load w (boot sample_options)))
              (snd_value (load w (boot sample_options))))
    as (l & _ & _ & Hl & _).
  - vm_compute. reflexivity.
  - exists l. exact Hl.
Defined.

(** X10: when the local PropertySet has a truthy
    [spring.cloud.config.name] (under a truthy [spring], [spring.cloud] and
    [spring.cloud.config]), a successful [load] leaves that name in the
    stored bootstrap PropertySet's [spring.cloud.config], replacing the
    bootstrap's own, and the config server, if called, was given it. *)
Theorem local_name_reaches_the_server
    (w : world) (s s' : sys) (c : option value) (loc name : value) :
  load w s = (s', inr c) ->
  _localConfig (self s') = Some loc ->
  name_override loc = Some name ->
  exists cfg,
    fetch_options (_bootstrapConfig (self s')) cfg
    /\ member cfg "name" = Some name
    /\ (truthy_opt (member cfg "enabled") = true ->
        In (RemoteFetch cfg) (performed_since s s')).
Proof.
  intros H Hloc Hname. apply load_success, readConfig_success in H.
  destruct H as (bs & loc' & rem & lp & rp & cfg & l & t & fetch
                 & (B & L & _) & _ & (_ & F & _ & N)
                 & (Hlog & _ & Hcase) & _).
  rewrite L in Hloc. injection Hloc as ->.
  exists cfg. rewrite B. split; [exact F|]. split; [now apply N|].
  intros En. rewrite (performed_since_app _ _ _ Hlog).
  destruct Hcase as [(_ & -> & _)|(En' & _)]; [|congruence].
  right. apply in_or_app. right. simpl. auto.
Qed.

Lemma local_name_reaches_the_server_witness :
  let w := mkWorld
             (fun path =>
                if path =? "/etc/app/bootstrap.yml" then Some "bootstrap"
                else if path =? "/etc/app/application.yml" then Some "application"
                else None)
             (fun _ => false)
             (fun text =>
                if text =? "bootstrap" then Some [Some sample_bootstrap]
                else Some [Some (VObj [("spring.cloud.config.name", VStr "billing")])])
             (fun _ => None)
             (fun _ => Fulfilled None) in
  exists cfg,
    fetch_options (_bootstrapConfig (self (fst (load w (boot sample_options))))) cfg
    /\ member cfg "name" = Some (VStr "billing").
Proof.
  intros w.
  destruct (local_name_reaches_the_server w (boot sample_options)
              (fst (load w (boot sample_options)))
              (snd_value (load w (boot sample_options)))
              (VObj [("spring", VObj [("cloud", VObj [("config",
                       VObj [("name", VStr "billing")])])])])
              (VStr "billing"))
    as (cfg & F & N & _).
  - vm_compute. reflexivity.
  - vm_compute. reflexivity.
  - reflexivity.
  - exists cfg. auto.
Defined.

Lemma extend_val_not_object (v : value) (src : option value) :
  is_object v = false -> extend_val v src = v.
Proof. destruct v; simpl; congruence. Qed.

(** X11: precedence in the composed configuration.  After a successful
    [load], a top-level key whose value in the remote PropertySet is not an
    object or array has that value in the composed configuration; a key that
    the remote PropertySet lacks and whose value in the local PropertySet is
    not an object or array has the local value. *)
Theorem composed_configuration_precedence
    (w : world) (s s' : sys) (c : value) (k : string) (v : value) :
  load w s = (s', inr (Some c)) ->
  is_object v = false ->
  exists loc rem,
    _localConfig (self s') = Some loc
    /\ _remoteConfig (self s') = Some rem
    /\ (member rem k = Some v -> member c k = Some v)
    /\ (member rem k = None -> member loc k = Some v -> member c k = Some v).
Proof.
  intros H Hv. apply load_success, readConfig_success in H.
  destruct H as (bs & loc & rem & lp & rp & cfg & l & t & fetch
                 & (_ & L & R & _ & C) & (-> & Hul & -> & Hur) & _).
  injection C as ->. exists (VObj lp), (VObj rp).
  split; [exact L|]. split; [exact R|].
  unfold _mergeProperties. cbn [member].
  change (fold_left extend [Some bs; Some (VObj lp); Some (VObj rp)] [])
    with (extend_each rp (extend_each lp (extend [] (Some bs)))).
  split.
  - intros Hk. rewrite get_extend_each by exact Hur. rewrite Hk.
    now rewrite extend_val_not_object.
  - intros Hn Hk. rewrite get_extend_each_absent by exact Hn.
    rewrite get_extend_each by exact Hul. rewrite Hk.
    now rewrite extend_val_not_object.
Qed.

Lemma composed_configuration_precedence_witness :
  let w := sample_world sample_bootstrap "hello"
             (Fulfilled (Some [("greeting", VStr "hi")])) in
  exists c, snd (load w (boot sample_options)) = inr (Some c)
            /\ member c "greeting" = Some (VStr "hi").
Proof.
  intros w.
  assert (H : load w (boot sample_options)
              = (fst (load w (boot sample_options)),
                 inr (Some (VObj
                   [("spring", VObj [("cloud", VObj [("config",
                       VObj [("enabled", VBool true); ("name", VStr "app");
                             ("profiles", VArr [("0", VStr "dev")])])])]);
                    ("greeting", VStr "hi")]))))
    by (vm_compute; reflexivity).
  destruct (composed_configuration_precedence w _ _ _ "greeting" (VStr "hi")
              H eq_refl) as (loc & rem & L & R & Hrem & _).
  eexists. split; [rewrite H; reflexivity|].
  apply Hrem. rewrite H in R. vm_compute in R. injection R as <-. reflexivity.
Defined.

(** ** Watcher: timers and notifications *)

Lemma startWatch_timers (newInterval : option Z) (s : sys) :
  one_timer s ->
  exists delay,
    timers (startWatch newInterval s) = [(next_timer s, delay)]
    /\ timerId (_watchConfig (self (startWatch newInterval s))) = Some (next_timer s).
Proof.
  intros H. unfold startWatch.
  destruct H as [H|(h & d & H & Hid)].
  - destruct (timerId (_watchConfig (self s))); simpl; rewrite H; simpl; eauto.
  - rewrite Hid. simpl. rewrite H. simpl. rewrite Nat.eqb_refl. simpl. eauto.
Qed.

Lemma one_timer_startWatch (newInterval : option Z) (s : sys) :
  one_timer s -> one_timer (startWatch newInterval s).
Proof.
  intros H. destruct (startWatch_timers newInterval s H) as (d & T & I).
  right. eauto.
Qed.

Lemma clearTimeout_pending (h : nat) (s : sys) :
  one_timer s -> pending h s = true -> timers (clearTimeout h s) = [].
Proof.
  unfold pending. intros [H|(h' & d & H & _)]; rewrite H; simpl; [discriminate|].
  rewrite orb_false_r. intros E. unfold clearTimeout. simpl.
  rewrite H. simpl. now rewrite E.
Qed.

Lemma on_timer_one_timer (w : world) (s : sys) :
  timers s = [] -> one_timer (on_timer w s).
Proof.
  intros H. unfold on_timer.
  destruct (readCloudConfig_uniform w (_bootstrapConfig (self s)))
    as (t & outcome & U & _).
  rewrite U.
  assert (Ht : one_timer (log_more t s)) by (left; exact H).
  destruct (negb (running (_watchConfig (self (log_more t s))))).
  - apply (one_timer_startWatch None) in Ht.
    destruct Ht as [Ht|(h & d & Ht & Hi)]; [left | right; exists h, d]; simpl; auto.
  - left. exact H.
Qed.

Lemma load_keeps_watch (w : world) (s : sys) :
  timers (fst (load w s)) = timers s
  /\ _watchConfig (self (fst (load w s))) = _watchConfig (self s).
Proof.
  destruct (load w s) as [s' [e|c]] eqn:E; simpl.
  - apply load_inv in E as [[-> _]|E]; [auto|].
    apply readConfig_failure in E as ((_ & _ & _ & W & _ & T & _) & _). auto.
  - apply load_success, readConfig_success in E.
    destruct E as (bs & loc & rem & lp & rp & cfg & l & t & fetch
                   & _ & _ & _ & _ & (_ & W & _ & T & _)). auto.
Qed.

Lemma one_timer_step (s : sys) (wc : world * call) :
  one_timer s -> one_timer (step s wc).
Proof.
  intros H. destruct wc as [w [i| |h| |o]]; unfold step; cbn [fst snd].
  - now apply one_timer_startWatch.
  - exact H.
  - unfold fire. destruct (pending h s) eqn:P; [|exact H].
    apply on_timer_one_timer. now apply clearTimeout_pending.
  - destruct (load_keeps_watch w s) as (T & W).
    unfold one_timer. rewrite T, W. exact H.
  - exact H.
Qed.

(** X12: whatever the client and the event loop do with an instance, in
    whatever order (start the watch, end it, load, set options, let pending
    timers fire), at most one timer is pending at any time, and it is the
    one whose handle the instance holds. *)
Theorem at_most_one_timer_pending (calls : list (world * call)) (o : options) :
  (List.length (timers (run calls (boot o))) <= 1)%nat
  /\ forall h delay,
       In (h, delay) (timers (run calls (boot o))) ->
       timerId (_watchConfig (self (run calls (boot o)))) = Some h.
Proof.
  assert (H : one_timer (run calls (boot o))).
  { unfold run. assert (H0 : one_timer (boot o)) by (left; reflexivity).
    revert H0. generalize (boot o).
    induction calls as [|wc r IH]; intros s Hs; simpl; [exact Hs|].
    apply IH. now apply one_timer_step. }
  destruct H as [H|(h & d & H & Hi)]; rewrite H; simpl.
  - split; [lia | tauto].
  - split; [lia|]. intros h' d' [[= <- <-]|[]]. exact Hi.
Qed.

(** X13: a firing installs a new timer exactly when the watcher is marked
    inactive at that moment: with [running] true no timer is pending
    afterwards (given that at most one was), with [running] false the
    watcher is marked active again and one timer, with the current interval,
    is pending. *)
Theorem firing_rearms_only_an_inactive_watcher
    (w : world) (h : nat) (s s' : sys) :
  one_timer s ->
  fire w h s = Some s' ->
  (running (_watchConfig (self s)) = true ->
   timers s' = [] /\ running (_watchConfig (self s')) = true)
  /\ (running (_watchConfig (self s)) = false ->
      timers s' = [(next_timer s, interval (_watchConfig (self s)))]
      /\ running (_watchConfig (self s')) = true).
Proof.
  intros H1. unfold fire. destruct (pending h s) eqn:P; [|discriminate].
  intros [= <-]. pose proof (clearTimeout_pending h s H1 P) as Hc.
  unfold on_timer.
  destruct (readCloudConfig_uniform w (_bootstrapConfig (self (clearTimeout h s))))
    as (t & outcome & U & _).
  rewrite U. cbn [log_more clearTimeout self _watchConfig running].
  split; intros R; rewrite R; cbn [negb].
  - simpl. simpl in Hc. auto.
  - unfold startWatch. cbn [self _watchConfig timerId].
    simpl in Hc.
    destruct (timerId (_watchConfig (self s))) eqn:Ti; simpl; rewrite ?Ti; simpl;
      rewrite ?Hc; simpl; auto.
Qed.

Lemma firing_rearms_only_an_inactive_watcher_witness :
  let w := sample_world sample_bootstrap "hello" (Fulfilled None) in
  let s := endWatch (startWatch (Some 250%Z) (boot sample_options)) in
  exists s', fire w 1 s = Some s' /\ timers s' = [(2%nat, 250%Z)].
Proof.
  intros w s. exists (on_timer w (clearTimeout 1 s)).
  assert (H : fire w 1 s = Some (on_timer w (clearTimeout 1 s))) by reflexivity.
  split; [exact H|].
  assert (H1 : one_timer s) by (right; exists 1%nat, 250%Z; split; reflexivity).
  exact (proj1 (proj2 (firing_rearms_only_an_inactive_watcher w 1 s _ H1 H) eq_refl)).
Defined.

(** X14: a timer that fires on an instance holding no bootstrap
    PropertySet (no [load] has got past the bootstrap stage) raises
    [CONFIG_ERROR] with a [TypeError], without calling the config server. *)
Theorem firing_before_load_raises_error (w : world) (h : nat) (s s' : sys) :
  _bootstrapConfig (self s) = None ->
  fire w h s = Some s' ->
  emitted s' = emitted s ++ [CONFIG_ERROR_EVENT TypeError]
  /\ io_log s' = io_log s.
Proof.
  intros Hb. unfold fire. destruct (pending h s); [|discriminate].
  intros [= <-]. unfold on_timer.
  cbn [clearTimeout self]. rewrite Hb.
  unfold _readCloudConfig, bind, lift. cbn [read_in spring_cloud_config nonnull].
  destruct (negb _).
  - destruct (startWatch_keeps_configuration None (clearTimeout h s))
      as (_ & _ & _ & _ & L & E).
    unfold emit. cbn [emitted io_log notification].
    fold (clearTimeout h s). rewrite L, E. auto.
  - auto.
Qed.

Lemma firing_before_load_raises_error_witness :
  let w := sample_world sample_bootstrap "hello" (Fulfilled None) in
  let s := startWatch None (boot sample_options) in
  exists s', fire w 1 s = Some s' /\ emitted s' = [CONFIG_ERROR_EVENT TypeError].
Proof.
  intros w s. exists (on_timer w (clearTimeout 1 s)).
  assert (H : fire w 1 s = Some (on_timer w (clearTimeout 1 s))) by reflexivity.
  split; [exact H|].
  exact (proj1 (firing_before_load_raises_error w 1 s _ eq_refl H)).
Defined.

(** X15: once the stored bootstrap PropertySet has an object at
    [spring.cloud.config], as after any successful [load], a firing whose
    config-server call is rejected or throws, or for which
    [spring.cloud.config.enabled] is falsy, raises [CONFIG_REFRESH] carrying
    the empty PropertySet, and not [CONFIG_ERROR] (with no listener that
    throws, none being modelled). *)
Theorem firing_reports_fetch_failure_as_refresh
    (w : world) (h : nat) (s s' : sys) (cfg : value) :
  fetch_options (_bootstrapConfig (self s)) cfg ->
  truthy_opt (member cfg "enabled") = false
  \/ fetch_failed (cloudConfigClient_load w cfg) = true ->
  fire w h s = Some s' ->
  emitted s' = emitted s ++ [CONFIG_REFRESH_EVENT (VObj [])].
Proof.
  intros F Hfail. unfold fire. destruct (pending h s); [|discriminate].
  intros [= <-]. unfold on_timer.
  change (_bootstrapConfig (self (clearTimeout h s))) with (_bootstrapConfig (self s)).
  rewrite (readCloudConfig_known w _ cfg F).
  destruct (truthy_opt (member cfg "enabled")) eqn:En.
  - destruct Hfail as [H|H]; [discriminate|].
    rewrite (on_fetch_failed _ H).
    destruct (negb _); [|reflexivity].
    destruct (startWatch_keeps_configuration None
                (log_more [RemoteFetch cfg] (clearTimeout h s)))
      as (_ & _ & _ & _ & _ & E).
    unfold emit. cbn [emitted notification]. now rewrite E.
  - destruct (negb _); [|reflexivity].
    destruct (startWatch_keeps_configuration None (clearTimeout h s))
      as (_ & _ & _ & _ & _ & E).
    unfold emit. cbn [emitted notification]. now rewrite E.
Qed.

Lemma firing_reports_fetch_failure_as_refresh_witness :
  let w1 := sample_world sample_bootstrap "hello" (Fulfilled None) in
  let w2 := sample_world sample_bootstrap "hello" (Thrown (ClientError 500)) in
  let s := startWatch None (fst (load w1 (boot sample_options))) in
  exists s',
    fire w2 1 s = Some s'
    /\ emitted s' = emitted s ++ [CONFIG_REFRESH_EVENT (VObj [])].
Proof.
  intros w1 w2 s. exists (on_timer w2 (clearTimeout 1 s)).
  assert (H : fire w2 1 s = Some (on_timer w2 (clearTimeout 1 s))) by reflexivity.
  assert (F : fetch_options (_bootstrapConfig (self s))
                (VObj [("enabled", VBool true); ("name", VStr "app");
                       ("profiles", VArr [("0", VStr "dev")])]))
    by (split; vm_compute; reflexivity).
  split; [exact H|].
  exact (firing_reports_fetch_failure_as_refresh w2 1 s _ _ F
           (or_intror eq_refl) H).
Defined.

(** ** Document Loader: filter, then merge *)

Lemma use_documents_filter (docs : list (option value))
    (ap : option (list string)) :
  (forall d, In d docs -> exists b, _shouldUseDocument d ap = inr b) ->
  forall doc,
    use_documents docs ap doc = inr (fold_left extend (filter (accepted ap) docs) doc).
Proof.
  induction docs as [|d r IH]; intros H doc; simpl; [reflexivity|].
  destruct (H d (or_introl eq_refl)) as (b & Hb).
  unfold accepted at 1. rewrite Hb.
  destruct b; simpl; apply IH; intros d' Hin; apply H; simpl; auto.
Qed.

(** X16: reading a file whose documents all pass through the filter
    without error resolves with the merge, in file order, of exactly the
    documents the filter accepts; the others leave no trace. *)
Theorem file_is_merge_of_accepted_documents
    (w : world) (relativePath text : string) (docs : list (option value))
    (activeProfiles : option (list string)) (s : sys) :
  readFileSync w relativePath = Some text ->
  safeLoadAll w text = Some docs ->
  (forall d, In d docs -> exists b, _shouldUseDocument d activeProfiles = inr b) ->
  _readYaml w relativePath activeProfiles s
  = (log_more [ReadFile relativePath] s,
     inr (_mergeProperties (filter (accepted activeProfiles) docs))).
Proof.
  intros Hread Hload Hok.
  unfold _readYaml, bind, perform, from_option. rewrite Hread. unfold ret.
  rewrite Hload. unfold lift. now rewrite (use_documents_filter docs _ Hok).
Qed.

Lemma file_is_merge_of_accepted_documents_witness :
  let docs := [Some (VObj [("port", VNum 80)]); None;
               Some (VObj [("profiles", VStr "prod"); ("port", VNum 443)]);
               Some (VObj [("profiles", VStr "dev"); ("debug", VBool true)])] in
  let w := mkWorld (fun _ => Some "text") (fun _ => false) (fun _ => Some docs)
             (fun _ => None) (fun _ => Fulfilled None) in
  _readYaml w "application.yml" (Some ["dev"]) (boot sample_options)
  = (log_more [ReadFile "application.yml"] (boot sample_options),
     inr (_mergeProperties (filter (accepted (Some ["dev"])) docs))).
Proof.
  intros docs w.
  apply (file_is_merge_of_accepted_documents w "application.yml" "text" docs
           (Some ["dev"]) (boot sample_options) eq_refl eq_refl).
  intros d [<-|[<-|[<-|[<-|[]]]]]; eexists; vm_compute; reflexivity.
Defined.

(** ** Dot-path expansion: fixed points *)

Lemma split_without_separator (sep : ascii) (s : string) :
  has_char sep s = false -> split sep s = [s].
Proof.
  induction s as [|c r IH]; simpl; [reflexivity|].
  destruct (Ascii.eqb c sep); simpl; [discriminate|].
  intros H. now rewrite (IH H).
Qed.

Lemma expand_loop_plain (ps : props) :
  (forall k, In k (keys ps) -> has_char dot k = false) ->
  forall t,
    fold_left
      (fun object kv =>
         extend object (Some (_createObjectForProperty (split dot (fst kv)) (snd kv))))
      ps t
    = extend_each ps t.
Proof.
  induction ps as [|[k v] r IH]; intros H t; simpl; [reflexivity|].
  rewrite (split_without_separator dot k) by (apply H; simpl; auto).
  simpl. apply IH. intros k' Hin. apply H. simpl; auto.
Qed.

Lemma expansion_of_plain_set_is_identity_aux (ps : props) :
  wf (VObj ps) = true ->
  (forall k, In k (keys ps) -> has_char dot k = false) ->
  _parsePropertiesToObjects (Some (VObj ps)) = VObj ps.
Proof.
  intros Hwf Hk. unfold _parsePropertiesToObjects. cbn [truthy for_in].
  now rewrite (expand_loop_plain ps Hk), extend_each_copy.
Qed.

(** X17: dot-path expansion leaves alone a PropertySet that needs none:
    when no top-level key contains ['.'] (keys being unique at every depth,
    and no key at any depth being [__proto__]), [_parsePropertiesToObjects]
    returns a PropertySet equal to its input. *)
Theorem expansion_of_plain_set_is_identity (ps : props) :
  wf (VObj ps) = true ->
  ordinary (VObj ps) = true ->
  (forall k, In k (keys ps) -> has_char dot k = false) ->
  _parsePropertiesToObjects (Some (VObj ps)) = VObj ps.
Proof. intros Hwf _. exact (expansion_of_plain_set_is_identity_aux ps Hwf). Qed.

Lemma expansion_of_plain_set_is_identity_witness :
  _parsePropertiesToObjects
    (Some (VObj [("server", VObj [("port", VNum 80); ("a.b", VNum 1)]);
                 ("tags", arr_of_list [VStr "x"; VStr "y"])]))
  = VObj [("server", VObj [("port", VNum 80); ("a.b", VNum 1)]);
          ("tags", arr_of_list [VStr "x"; VStr "y"])].
Proof.
  apply (expansion_of_plain_set_is_identity
           [("server", VObj [("port", VNum 80); ("a.b", VNum 1)]);
            ("tags", arr_of_list [VStr "x"; VStr "y"])] eq_refl eq_refl).
  intros k [<-|[<-|[]]]; reflexivity.
Defined.

Lemma wf_obj_get (t : props) (k : string) (v : value) :
  forallb (fun kv => wf (snd kv)) t = true -> get_prop t k = Some v -> wf v = true.
Proof.
  induction t as [|[k' v'] r IH]; simpl; [discriminate|].
  intros H. apply andb_prop in H as [Hv Hr].
  destruct (k' =? k); [now intros [= <-] | now apply IH].
Qed.

Lemma wf_values_set_prop (t : props) (k : string) (v : value) :
  forallb (fun kv => wf (snd kv)) t = true -> wf v = true ->
  forallb (fun kv => wf (snd kv)) (set_prop t k v) = true.
Proof.
  intros Ht Hv. induction t as [|[k' v'] r IH]; simpl.
  - now rewrite Hv.
  - simpl in Ht. apply andb_prop in Ht as [H1 H2].
    destruct (k' =? k); simpl; [now rewrite Hv, H2 | now rewrite H1, IH].
Qed.

Lemma wf_extend_each (ps : props) :
  Forall (fun kv => wf (snd kv) = true ->
                    forall src, wf_opt src = true ->
                                wf (extend_val (snd kv) src) = true) ps ->
  forallb (fun kv => wf (snd kv)) ps = true ->
  forall t, wf (VObj t) = true -> wf (VObj (extend_each ps t)) = true.
Proof.
  induction ps as [|[name c] rest IH]; intros Hall Hps t Ht; simpl extend_each;
    [exact Ht|].
  inversion Hall as [|? ? Hc Hrest]; subst. simpl in Hc, Hps.
  apply andb_prop in Hps as [Hcv Hps].
  apply IH; [exact Hrest | exact Hps |].
  simpl in Ht. apply andb_prop in Ht as [Hu Hv].
  assert (Hx : wf (extend_val c (get_prop t name)) = true).
  { apply Hc; [exact Hcv|]. destruct (get_prop t name) eqn:E; [|reflexivity].
    simpl. eapply wf_obj_get; eauto. }
  simpl. now rewrite unique_set_prop, wf_values_set_prop.
Qed.

Lemma wf_extend_val (copy : value) :
  wf copy = true ->
  forall src, wf_opt src = true -> wf (extend_val copy src) = true.
Proof.
  induction copy as [| | | |ps IH|ps IH] using value_induction;
    intros Hc src Hs; try exact Hc;
    simpl in Hc; apply andb_prop in Hc as [_ Hv].
  - rewrite extend_val_arr.
    change (wf (VObj (extend_each ps
              match src with Some (VArr t) => t | _ => [] end)) = true).
    apply (wf_extend_each ps IH Hv). destruct src as [[]|]; try reflexivity. exact Hs.
  - rewrite extend_val_obj.
    apply (wf_extend_each ps IH Hv). destruct src as [[]|]; try reflexivity. exact Hs.
Qed.

Lemma wf_create (segs : list string) (v : value) :
  wf v = true -> wf (_createObjectForProperty segs v) = true.
Proof.
  intros Hv. induction segs as [|seg r IH]; simpl; [exact Hv|]. now rewrite IH.
Qed.

Lemma expand_loop_wf (ps : props) :
  Forall (fun kv => wf (snd kv) = true) ps ->
  forall t,
    wf (VObj t) = true ->
    (forall k, In k (keys t) -> has_char dot k = false) ->
    let r := fold_left
               (fun object kv =>
                  extend object
                    (Some (_createObjectForProperty (split dot (fst kv)) (snd kv))))
               ps t in
    wf (VObj r) = true /\ forall k, In k (keys r) -> has_char dot k = false.
Proof.
  intros Hps. induction Hps as [|[k v] r Hv _ IH]; intros t Ht Hk; simpl; [auto|].
  pose proof (split_nonempty dot k) as Hne.
  pose proof (split_segments dot k) as Hseg.
  destruct (split dot k) as [|seg rest] eqn:Es; [congruence|].
  inversion Hseg as [|? ? Hs _]; subst.
  cbn [_createObjectForProperty extend for_in extend_each]. apply IH.
  - assert (W : wf (extend_val (VObj [(seg, _createObjectForProperty rest v)])
                                 (Some (VObj t))) = true).
    { apply wf_extend_val; [|exact Ht].
      simpl. simpl in Hv. now rewrite wf_create. }
    rewrite extend_val_obj in W. exact W.
  - intros k' Hin. apply keys_set_prop in Hin as [->|Hin]; auto.
Qed.

(** X18: dot-path expansion is idempotent: expanding the result of an
    expansion changes nothing, for an input whose values have unique keys
    at every depth and none of whose key segments or nested keys is
    [__proto__]. *)
Theorem expansion_is_idempotent (ps : props) :
  Forall (fun kv => wf (snd kv) = true) ps ->
  forallb ordinary_property ps = true ->
  _parsePropertiesToObjects (Some (_parsePropertiesToObjects (Some (VObj ps))))
  = _parsePropertiesToObjects (Some (VObj ps)).
Proof.
  intros Hps _.
  destruct (expand_loop_wf ps Hps [] eq_refl) as (Hwf & Hk); [intros k []|].
  unfold _parsePropertiesToObjects at 2. cbn [truthy for_in].
  now apply expansion_of_plain_set_is_identity_aux.
Qed.

Lemma expansion_is_idempotent_witness :
  let ps := [("a.b", VNum 1); ("a", VObj [("c.d", VNum 2)]); ("a.b.e", VStr "x")] in
  _parsePropertiesToObjects (Some (_parsePropertiesToObjects (Some (VObj ps))))
  = _parsePropertiesToObjects (Some (VObj ps)).
Proof.
  intros ps. apply (expansion_is_idempotent ps); [repeat constructor | reflexivity].
Defined.
